(** * DocumentManager: working set, current document and dirty bits

    A shallow embedding of [src/DocumentManager.js] and the properties of
    its state machine.

    Modelling choices.
    - A JavaScript reference to a [Document] object is a value of type
      [Document]: the allocation number of the object ([docId]) together
      with its [file] field, which the constructor assigns once and nothing
      reassigns.  [==] and [===] on documents are equality of these values.
    - The fields that the code mutates after construction ([isDirty],
      [_editor], [_savedUndoPosition]) live in a store keyed by [docId]; an
      object without an entry reads the defaults of [Document.prototype].
    - CodeMirror instances are external objects; the store [widgets] keeps
      what this module reads from them ([historySize()]) and the [onChange]
      option it sets.
    - [$(exports).triggerHandler(name, arg)] appends to the trace [events].
      Listeners live outside this module and are not run by the model.
    - Integers are [Z], the indices into the working set included:
      [_findInWorkingSet] answers [-1] when nothing matches, as the source
      does.  The indices [forEach] hands out and the response counter of
      [_init] are [nat]. *)

From Stdlib Require Import ZArith String List Lia.
From stdpp Require Import base option list gmap strings.

(** ** Data *)

(** A [FileEntry] handle: an object identity and the path it stands for. *)
Record FileEntry := { entryId : nat; fullPath : string }.

Record Document := { docId : nat; file : FileEntry }.

#[global] Instance FileEntry_eq_dec : EqDecision FileEntry.
Proof. solve_decision. Defined.

#[global] Instance Document_eq_dec : EqDecision Document.
Proof. solve_decision. Defined.

(** What [editor.historySize()] returns. *)
Record HistorySize := { undo : Z; redo : Z }.

(** A CodeMirror instance as seen from this module. *)
Record CodeMirror := { history : HistorySize; onChange : option Document }.

(** Per-instance mutable fields of a [Document]. *)
Record DocFields := {
  isDirty : bool;
  _editor : option nat;
  _savedUndoPosition : Z
}.

(** [Document.prototype.isDirty = false], [_editor = null],
    [_savedUndoPosition = 0]. *)
Definition prototype : DocFields :=
  {| isDirty := false; _editor := None; _savedUndoPosition := 0 |}.

Inductive Event :=
| dirtyFlagChange (d : Document)
| currentDocumentChange
| workingSetAdd (d : Document)
| workingSetRemove (d : Document)
| assertionFailed.

#[global] Instance Event_eq_dec : EqDecision Event.
Proof. solve_decision. Defined.

Record Manager := {
  _currentDocument : option Document;
  _workingSet : list Document;
  documents : list Document;
  docFields : gmap nat DocFields;
  widgets : gmap nat CodeMirror;
  events : list Event
}.

(** The module right after it is loaded. *)
Definition initial : Manager :=
  {| _currentDocument := None; _workingSet := []; documents := [];
     docFields := ∅; widgets := ∅; events := [] |}.

Definition setCurrent (c : option Document) (st : Manager) : Manager :=
  {| _currentDocument := c; _workingSet := _workingSet st;
     documents := documents st; docFields := docFields st;
     widgets := widgets st; events := events st |}.

Definition setWorkingSet (ws : list Document) (st : Manager) : Manager :=
  {| _currentDocument := _currentDocument st; _workingSet := ws;
     documents := documents st; docFields := docFields st;
     widgets := widgets st; events := events st |}.

Definition setDocuments (ds : list Document) (st : Manager) : Manager :=
  {| _currentDocument := _currentDocument st; _workingSet := _workingSet st;
     documents := ds; docFields := docFields st;
     widgets := widgets st; events := events st |}.

Definition setDocFields (fs : gmap nat DocFields) (st : Manager) : Manager :=
  {| _currentDocument := _currentDocument st; _workingSet := _workingSet st;
     documents := documents st; docFields := fs;
     widgets := widgets st; events := events st |}.

Definition setWidgets (ws : gmap nat CodeMirror) (st : Manager) : Manager :=
  {| _currentDocument := _currentDocument st; _workingSet := _workingSet st;
     documents := documents st; docFields := docFields st;
     widgets := ws; events := events st |}.

(** [$(exports).triggerHandler(...)]. *)
Definition trigger (e : Event) (st : Manager) : Manager :=
  {| _currentDocument := _currentDocument st; _workingSet := _workingSet st;
     documents := documents st; docFields := docFields st;
     widgets := widgets st; events := events st ++ [e] |}.

(** Reading and writing the fields of [this]. *)
Definition fieldsOf (st : Manager) (this : Document) : DocFields :=
  default prototype (docFields st !! docId this).

Definition writeFields (this : Document) (f : DocFields) (st : Manager) : Manager :=
  setDocFields (<[docId this := f]> (docFields st)) st.

Definition withDirty (b : bool) (f : DocFields) : DocFields :=
  {| isDirty := b; _editor := _editor f;
     _savedUndoPosition := _savedUndoPosition f |}.

Definition withEditor (e : option nat) (f : DocFields) : DocFields :=
  {| isDirty := isDirty f; _editor := e;
     _savedUndoPosition := _savedUndoPosition f |}.

Definition withSaved (z : Z) (f : DocFields) : DocFields :=
  {| isDirty := isDirty f; _editor := _editor f; _savedUndoPosition := z |}.

(** ** Exceptions *)

Inductive Exn :=
| DocumentAlreadyExists   (* "Creating a document + editor when one already exists" *)
| TypeError.              (* a property read on null or undefined *)

Inductive Outcome (A : Type) :=
| Returned (a : A) (st : Manager)
| Threw (e : Exn) (st : Manager).
Arguments Returned {A} a st.
Arguments Threw {A} e st.

Definition M (A : Type) : Type := Manager -> Outcome A.

Definition ret {A} (a : A) : M A := fun st => Returned a st.

Definition bind {A B} (m : M A) (k : A -> M B) : M B :=
  fun st => match m st with
            | Returned a st' => k a st'
            | Threw e st' => Threw e st'
            end.

(** A statement that cannot throw. *)
Definition lift (f : Manager -> Manager) : M unit :=
  fun st => Returned tt (f st).

Notation "'let!' x ':=' m 'in' k" := (bind m (fun x => k))
  (at level 10, x name, m at level 100, k at level 200).
Notation "m '>>>' k" := (bind m (fun _ => k))
  (at level 100, k at level 200, right associativity).

Definition stateOf {A} (o : Outcome A) : Manager :=
  match o with Returned _ st => st | Threw _ st => st end.

(** ** The working set *)

(** The loop of [_findInWorkingSet], started at index [i]. *)
Fixpoint findFrom (i : Z) (ws : list Document) (fileEntry : FileEntry) : Z :=
  match ws with
  | [] => (-1)%Z
  | d :: rest =>
      if decide (fullPath (file d) = fullPath fileEntry) then i
      else findFrom (i + 1)%Z rest fileEntry
  end.

Definition _findInWorkingSet (st : Manager) (fileEntry : FileEntry) : Z :=
  findFrom 0%Z (_workingSet st) fileEntry.

(** [a[k]] on an array: [undefined] ([None]) outside its bounds. *)
Definition jsIndex {A} (a : list A) (k : Z) : option A :=
  if (k <? 0)%Z then None else a !! Z.to_nat k.

Definition getCurrentDocument (st : Manager) : option Document :=
  _currentDocument st.

Definition getWorkingSet (st : Manager) : list Document := _workingSet st.

Definition getDocumentForFile (st : Manager) (fileEntry : FileEntry)
  : option Document :=
  match _currentDocument st with
  | Some cur =>
      if decide (fullPath (file cur) = fullPath fileEntry) then Some cur
      else
        let wsIndex := _findInWorkingSet st fileEntry in
        if decide (wsIndex = (-1)%Z) then None
        else jsIndex (_workingSet st) wsIndex
  | None =>
      let wsIndex := _findInWorkingSet st fileEntry in
      if decide (wsIndex = (-1)%Z) then None
      else jsIndex (_workingSet st) wsIndex
  end.

Definition addToWorkingSet (document : Document) (st : Manager) : Manager :=
  if decide (_findInWorkingSet st (file document) = (-1)%Z) then
    trigger (workingSetAdd document)
      (setWorkingSet (_workingSet st ++ [document]) st)
  else st.

Definition _removeFromWorkingSet (document : Document) (st : Manager) : Manager :=
  let index := _findInWorkingSet st (file document) in
  if decide (index = (-1)%Z) then st
  else
    trigger (workingSetRemove document)
      (setWorkingSet (delete (Z.to_nat index) (_workingSet st)) st).

(** ** Documents and their dirty bit *)

(** [this._editor.historySize()]; [None] when the read throws, that is
    when [_editor] is still [null]. *)
Definition historySizeOf (st : Manager) (this : Document) : option HistorySize :=
  match _editor (fieldsOf st this) with
  | None => None
  | Some w => history <$> widgets st !! w
  end.

Definition _setEditor (this : Document) (editor : option nat) : M unit :=
  fun st =>
    match editor with
    | None => Returned tt st
    | Some w =>
        let st1 := writeFields this (withEditor (Some w) (fieldsOf st this)) st in
        match widgets st1 !! w with
        | None => Threw TypeError st1
        | Some cm =>
            let st2 :=
              setWidgets
                (<[w := {| history := history cm; onChange := Some this |}]>
                   (widgets st1)) st1 in
            Returned tt
              (writeFields this
                 (withSaved (undo (history cm)) (fieldsOf st2 this)) st2)
        end
    end.

(** [new Document(file, editor)]; [editor] is [None] when the argument is
    left out.  The constructor is always called with [new], so its first
    test passes.  The new object is the next allocation and has no field
    of its own yet. *)
Definition newDocument (fileEntry : FileEntry) (editor : option nat) : M Document :=
  fun st =>
    match getDocumentForFile st fileEntry with
    | Some _ => Threw DocumentAlreadyExists st
    | None =>
        let this := {| docId := length (documents st); file := fileEntry |} in
        let st0 :=
          setDocuments (documents st ++ [this])
            (setDocFields (delete (docId this) (docFields st)) st) in
        match _setEditor this editor st0 with
        | Returned _ st' => Returned this st'
        | Threw e st' => Threw e st'
        end
    end.

Definition _updateDirty (this : Document) : M unit :=
  fun st =>
    match historySizeOf st this with
    | None => Threw TypeError st
    | Some historySize =>
        let st1 :=
          if ((undo historySize <? _savedUndoPosition (fieldsOf st this))%Z
              && (redo historySize =? 0)%Z)%bool
          then writeFields this (withSaved (-1) (fieldsOf st this)) st
          else st in
        let newIsDirty :=
          negb (undo historySize =? _savedUndoPosition (fieldsOf st1 this))%Z in
        if Bool.eqb (isDirty (fieldsOf st1 this)) newIsDirty then Returned tt st1
        else
          let st2 :=
            trigger (dirtyFlagChange this)
              (writeFields this (withDirty newIsDirty (fieldsOf st1 this)) st1) in
          Returned tt (if newIsDirty then addToWorkingSet this st2 else st2)
    end.

Definition markClean (this : Document) : M unit :=
  fun st =>
    match historySizeOf st this with
    | None => Threw TypeError st
    | Some historySize =>
        _updateDirty this
          (writeFields this (withSaved (undo historySize) (fieldsOf st this)) st)
    end.

(** [Document.prototype.toString]. *)
Definition toString (st : Manager) (this : Document) : string :=
  String.append "[Document "
    (String.append (fullPath (file this))
       (String.append " "
          (String.append
             (if isDirty (fieldsOf st this) then "(dirty!)" else "(clean)")
             "]"))).

(** The widget [w] changes its buffer: its history becomes [h] and it
    calls its [onChange] option, which [_setEditor] bound to
    [_updateDirty] of a document. *)
Definition editorChanged (w : nat) (h : HistorySize) : M unit :=
  fun st =>
    match widgets st !! w with
    | None => Returned tt st
    | Some cm =>
        let st1 :=
          setWidgets (<[w := {| history := h; onChange := onChange cm |}]> (widgets st)) st in
        match onChange cm with
        | None => Returned tt st1
        | Some this => _updateDirty this st1
        end
    end.

(** A run of change notifications of one widget. *)
Fixpoint editorChanges (w : nat) (hs : list HistorySize) : M unit :=
  match hs with
  | [] => ret tt
  | h :: rest => editorChanged w h >>> editorChanges w rest
  end.

(** ** Saved working set *)

(** One record of [prefs.files]. *)
Record StoredFile := { storedPath : string; active : bool }.

(** An element of the array [filesToOpen]: never assigned, [null], or a
    resolved entry. *)
Inductive Slot := Hole | Null | Entry (fileEntry : FileEntry).

(** [a[i] = v]: an assignment past the end extends the array with holes. *)
Definition jsSet (i : nat) (v : Slot) (a : list Slot) : list Slot :=
  if decide (i < length a) then <[i := v]> a
  else a ++ replicate (i - length a) Hole ++ [v].

(** The variables shared by the callbacks of [_init]. *)
Record Restore := {
  filesToOpen : list Slot;
  activeFile : option FileEntry;
  responseCount : nat;
  resolved : bool
}.

Definition noResponse : Restore :=
  {| filesToOpen := []; activeFile := None; responseCount := 0; resolved := false |}.

Definition next (fileCount : nat) (r : Restore) : Restore :=
  {| filesToOpen := filesToOpen r; activeFile := activeFile r;
     responseCount := S (responseCount r);
     resolved := resolved r || (S (responseCount r) =? fileCount) |}.

(** The local variable [activeDoc] of the [done] callback. *)
Inductive JsRef := Undefined | JsNull | Obj (d : Document).

(** [_savePreferences(storage)]: the array assigned to [storage.files]. *)
Definition _savePreferences (st : Manager) : list StoredFile :=
  let workingSet := getWorkingSet st in
  let currentDoc := getCurrentDocument st in
  (λ value,
     {| storedPath := fullPath (file value);
        active := bool_decide (Some value = currentDoc) |}) <$> workingSet.

Section Host.

(** [ProjectManager.isWithinProject]. *)
Variable isWithinProject : string -> bool.

(** [projectRoot.getFile]: the entry handed to the success callback, or
    [None] when the error callback is called. *)
Variable getFile : string -> option FileEntry.

Definition showInEditor (document : Document) (st : Manager) : Manager :=
  if decide (_currentDocument st = Some document) then st
  else
    let st1 :=
      if isWithinProject (fullPath (file document)) then st
      else addToWorkingSet document st in
    trigger currentDocumentChange (setCurrent (Some document) st1).

Definition _clearEditor (st : Manager) : Manager :=
  match _currentDocument st with
  | None => st
  | Some _ => trigger currentDocumentChange (setCurrent None st)
  end.

(** The value of [nextDocument] once the choice is made; [None] is
    [undefined]. *)
Definition nextDocument (document : Document) (st : Manager) : option Document :=
  let wsIndex := _findInWorkingSet st (file document) in
  let len := Z.of_nat (length (_workingSet st)) in
  if decide (wsIndex = (-1)%Z) then
    if (0 <? len)%Z then jsIndex (_workingSet st) (len - 1)%Z else None
  else if (wsIndex <? len - 1)%Z then jsIndex (_workingSet st) (wsIndex + 1)%Z
  else if (0 <? wsIndex)%Z then jsIndex (_workingSet st) (wsIndex - 1)%Z
  else None.

(** The first statement of [closeDocument]: the [if] that moves the
    editor away from [document]. *)
Definition switchAway (document : Document) (st : Manager) : Manager :=
  if decide (_currentDocument st = Some document) then
    match nextDocument document st with
    | Some n => showInEditor n st
    | None => _clearEditor st
    end
  else st.

Definition consoleAssert (b : bool) (st : Manager) : Manager :=
  if b then st else trigger assertionFailed st.

Definition closeDocument (document : Document) (st : Manager) : Manager :=
  let st1 := switchAway document st in
  let st2 :=
    consoleAssert (bool_decide (_currentDocument st1 ≠ Some document)) st1 in
  _removeFromWorkingSet document st2.

(** *** Restoring the working set *)

(** The callbacks that [getFile] calls for [prefs.files[index]]. *)
Definition respond (files : list StoredFile) (index : nat) (r : Restore) : Restore :=
  match files !! index with
  | None => r
  | Some value =>
      match getFile (storedPath value) with
      | Some fileEntry =>
          next (length files)
            {| filesToOpen := jsSet index (Entry fileEntry) (filesToOpen r);
               activeFile := if active value then Some fileEntry else activeFile r;
               responseCount := responseCount r; resolved := resolved r |}
      | None =>
          next (length files)
            {| filesToOpen := jsSet index Null (filesToOpen r);
               activeFile := activeFile r;
               responseCount := responseCount r; resolved := resolved r |}
      end
  end.

(** The responses arrive in the order [order]; the result is the state
    of the shared variables when the deferred is resolved, [None] when
    it never is. *)
Fixpoint awaitAll (files : list StoredFile) (order : list nat) (r : Restore)
  : option Restore :=
  match order with
  | [] => None
  | index :: rest =>
      let r' := respond files index r in
      if resolved r' then Some r' else awaitAll files rest r'
  end.

(** The [forEach] of the [done] callback; holes are skipped by
    [forEach], [null] by [if (value)]. *)
Fixpoint addExisting (slots : list Slot) (activeFile : option FileEntry)
    (activeDoc : JsRef) : M JsRef :=
  match slots with
  | [] => ret activeDoc
  | Entry value :: rest =>
      let! doc := newDocument value None in
      lift (addToWorkingSet doc) >>>
      addExisting rest activeFile
        (if decide (Some value = activeFile) then Obj doc else activeDoc)
  | _ :: rest => addExisting rest activeFile activeDoc
  end.

Definition restoreDone (r : Restore) : M unit :=
  let! activeDoc := addExisting (filesToOpen r) (activeFile r) Undefined in
  fun st =>
    let activeDoc' :=
      match activeDoc with
      | JsNull =>
          match _workingSet st !! 0 with
          | Some d => Obj d
          | None => Undefined
          end
      | other => other
      end in
    match activeDoc' with
    | Obj d => Returned tt (showInEditor d st)
    | _ => Returned tt st
    end.

(** [prefs] is [prefs.files], [None] when it is [undefined]. *)
Definition _init (prefs : option (list StoredFile)) (order : list nat) : M unit :=
  match prefs with
  | None => ret tt
  | Some files =>
      match awaitAll files order noResponse with
      | None => ret tt
      | Some r => restoreDone r
      end
  end.

(** *** Steps and reachable states *)

(** One step of the module: an exported operation, a widget created by
    the editor layer, a change notification of a widget, [markClean], the
    restore at start-up, or the editor layer attaching an editor to a
    document through [_setEditor]; a step that throws ends in the state
    the exception leaves.  Documents passed to an operation were
    constructed before. *)
Inductive step : Manager -> Manager -> Prop :=
| step_widget st w h :
    widgets st !! w = None ->
    step st (setWidgets (<[w := {| history := h; onChange := None |}]> (widgets st)) st)
| step_new st fileEntry editor :
    step st (stateOf (newDocument fileEntry editor st))
| step_add st d :
    d ∈ documents st -> step st (addToWorkingSet d st)
| step_show st d :
    d ∈ documents st -> step st (showInEditor d st)
| step_close st d :
    d ∈ documents st -> step st (closeDocument d st)
| step_change st w h :
    step st (stateOf (editorChanged w h st))
| step_clean st d :
    d ∈ documents st -> step st (stateOf (markClean d st))
| step_restore st prefs order :
    step st (stateOf (_init prefs order st))
| step_attach st d editor :
    d ∈ documents st -> step st (stateOf (_setEditor d editor st)).

(** The states the module can be in. *)
Inductive reachable : Manager -> Prop :=
| reach_initial : reachable initial
| reach_step st st' : reachable st -> step st st' -> reachable st'.

End Host.

(** ** Vocabulary of the statements *)

Definition pathOf (d : Document) : string := fullPath (file d).

(** No two entries of the working set have the same path. *)
Definition wsInv (st : Manager) : Prop := NoDup (pathOf <$> _workingSet st).

(** From [st] to [st'] no [isDirty] flag of an existing document changed
    and no [dirtyFlagChange] was emitted. *)
Definition quiet (st st' : Manager) : Prop :=
  length (documents st) ≤ length (documents st') ∧
  (∃ evs, events st' = events st ++ evs ∧ ∀ d, dirtyFlagChange d ∉ evs) ∧
  ∀ d, docId d < length (documents st) →
       isDirty (fieldsOf st' d) = isDirty (fieldsOf st d).

(** From [st] to [st'] the flag of an existing document changed exactly
    if a [dirtyFlagChange] for it was emitted, and a document whose
    notification left it dirty has its path in the working set. *)
Definition flagsNotified (st st' : Manager) : Prop :=
  ∃ evs,
    events st' = events st ++ evs ∧
    (∀ d, docId d < length (documents st) →
          (isDirty (fieldsOf st' d) ≠ isDirty (fieldsOf st d) ↔
           ∃ d', dirtyFlagChange d' ∈ evs ∧ docId d' = docId d)) ∧
    (∀ d, dirtyFlagChange d ∈ evs → isDirty (fieldsOf st' d) = true →
          _findInWorkingSet st' (file d) ≠ (-1)%Z).

(** A listener that keeps a copy of the working set from the
    notifications alone: [workingSetAdd] appends its document,
    [workingSetRemove] drops the first entry that has the path of its
    document. *)
Definition mirror (copy : list Document) (e : Event) : list Document :=
  match e with
  | workingSetAdd d => copy ++ [d]
  | workingSetRemove d =>
      let index := findFrom 0%Z copy (file d) in
      if decide (index = (-1)%Z) then copy else delete (Z.to_nat index) copy
  | _ => copy
  end.

(** From [st] to [st'] the notifications emitted bring the listener's
    copy from the old working set to the new one. *)
Definition mirrored (st st' : Manager) : Prop :=
  ∃ evs, events st' = events st ++ evs ∧
         foldl mirror (_workingSet st) evs = _workingSet st'.

(** From [st] to [st'] the current document stayed and no
    [currentDocumentChange] was emitted. *)
Definition calm (st st' : Manager) : Prop :=
  _currentDocument st' = _currentDocument st ∧
  ∃ evs, events st' = events st ++ evs ∧ currentDocumentChange ∉ evs.

(** From [st] to [st'] the current document changed and exactly one
    [currentDocumentChange] was emitted. *)
Definition switched (st st' : Manager) : Prop :=
  _currentDocument st' ≠ _currentDocument st ∧
  ∃ before after,
    events st' = events st ++ before ++ (currentDocumentChange :: after) ∧
    (currentDocumentChange ∉ before) ∧ (currentDocumentChange ∉ after).

(** What the callbacks store in [filesToOpen] for one record. *)
Definition slotOf (getFile : string -> option FileEntry) (value : StoredFile) : Slot :=
  match getFile (storedPath value) with
  | Some fileEntry => Entry fileEntry
  | None => Null
  end.

(** The entries of an array of slots, in index order. *)
Definition entriesOf (slots : list Slot) : list FileEntry :=
  omap (λ s, match s with Entry fileEntry => Some fileEntry | _ => None end) slots.

(** The stored records whose path resolves, in stored order. *)
Definition survivors (getFile : string -> option FileEntry)
    (files : list StoredFile) : list FileEntry :=
  omap (λ value, getFile (storedPath value)) files.

(** The documents that successive constructions build for [fs], the
    first one being allocation number [from]. *)
Definition built (from : nat) (fs : list FileEntry) : list Document :=
  imap (λ i fileEntry, {| docId := from + i; file := fileEntry |}) fs.

(** ** Sample data *)

Definition insideProject : string -> bool := λ _, true.

Definition fileA : FileEntry := {| entryId := 0; fullPath := "/proj/a.js" |}.
Definition fileB : FileEntry := {| entryId := 1; fullPath := "/proj/b.js" |}.
Definition fileC : FileEntry := {| entryId := 2; fullPath := "/proj/c.js" |}.

(** A project in which [a.js] is gone while [b.js] and [c.js] exist. *)
Definition sampleGetFile (path : string) : option FileEntry :=
  if decide (path = "b.js") then Some fileB
  else if decide (path = "c.js") then Some fileC
  else None.

Definition storedABC : list StoredFile :=
  [ {| storedPath := "a.js"; active := false |};
    {| storedPath := "b.js"; active := true |};
    {| storedPath := "c.js"; active := false |} ].

(** The documents a restore of [storedABC] builds. *)
Definition restoredB : Document := {| docId := 0; file := fileB |}.
Definition restoredC : Document := {| docId := 1; file := fileC |}.

(** A stored list without an active flag. *)
Definition storedB : list StoredFile :=
  [ {| storedPath := "b.js"; active := false |} ].

Definition fileX : FileEntry := {| entryId := 9; fullPath := "/tmp/x.js" |}.

Definition docA : Document := {| docId := 0; file := fileA |}.
Definition docB : Document := {| docId := 1; file := fileB |}.
Definition docC : Document := {| docId := 2; file := fileC |}.
Definition docX : Document := {| docId := 3; file := fileX |}.

(** A second object for the file of [docA]. *)
Definition docA' : Document := {| docId := 1; file := fileA |}.

Definition constructed (fileEntry : FileEntry) (editor : option nat)
    (st : Manager) : Manager :=
  stateOf (newDocument fileEntry editor st).

(** Three documents are constructed and added; the middle one is shown. *)
Definition threeOpen : Manager :=
  showInEditor insideProject docB
    (addToWorkingSet docC
       (addToWorkingSet docB
          (addToWorkingSet docA
             (constructed fileC None
                (constructed fileB None (constructed fileA None initial)))))).

(** Two documents are constructed for one file before either is opened;
    then one is added to the working set and the other is shown. *)
Definition twoOpen : Manager :=
  showInEditor insideProject docA'
    (addToWorkingSet docA
       (constructed fileA None (constructed fileA None initial))).

(** A widget with an empty history, before any document uses it. *)
Definition blankWidget : CodeMirror :=
  {| history := {| undo := 0; redo := 0 |}; onChange := None |}.

Definition withWidget : Manager := setWidgets {[ 0 := blankWidget ]} initial.

(** [docA] is constructed with the widget 0. *)
Definition fresh : Manager := constructed fileA (Some 0) withWidget.

(** Two edits later. *)
Definition edited : Manager :=
  stateOf (editorChanged 0 {| undo := 2; redo := 0 |} fresh).

(** The document of [edited] is saved at undo depth 2. *)
Definition savedAtTwo : Manager := stateOf (markClean docA edited).

(** A stored list that names [b.js] twice. *)
Definition storedBB : list StoredFile :=
  [ {| storedPath := "b.js"; active := false |};
    {| storedPath := "b.js"; active := true |} ].

(** A file system in which every path resolves to an entry of that path. *)
Definition everyFile (path : string) : option FileEntry :=
  Some {| entryId := 0; fullPath := path |}.

(** One edit, undo, a different edit, undo. *)
Definition editUndoEditUndo : list HistorySize :=
  [ {| undo := 1; redo := 0 |}; {| undo := 0; redo := 1 |};
    {| undo := 1; redo := 0 |}; {| undo := 0; redo := 1 |} ].

(** ** Searching the working set *)

Lemma findFrom_absent ws fileEntry i :
  (∀ e, e ∈ ws → pathOf e ≠ fullPath fileEntry) →
  findFrom i ws fileEntry = (-1)%Z.
Proof.
  revert i. induction ws as [|d ws IH]; intros i Hno; simpl; [done|].
  case_decide as Hd.
  - exfalso. eapply Hno; [apply list_elem_of_here|exact Hd].
  - apply IH. intros e He. apply Hno. by apply list_elem_of_further.
Qed.

Lemma findFrom_first ws fileEntry i0 i e :
  ws !! i = Some e →
  pathOf e = fullPath fileEntry →
  (∀ j e', j < i → ws !! j = Some e' → pathOf e' ≠ fullPath fileEntry) →
  findFrom i0 ws fileEntry = (i0 + Z.of_nat i)%Z.
Proof.
  revert i0 i. induction ws as [|d ws IH]; intros i0 i Hi He Hfirst; [done|].
  simpl. destruct i as [|i]; simpl in Hi.
  - injection Hi as ->. rewrite decide_True by exact He. lia.
  - rewrite decide_False by (apply (Hfirst 0 d); [lia|done]).
    rewrite (IH (i0 + 1)%Z i); [lia|done|done|].
    intros j e' Hj Hl. apply (Hfirst (S j) e'); [lia|done].
Qed.

Lemma findFrom_inv ws fileEntry i0 k :
  findFrom i0 ws fileEntry = k → k ≠ (-1)%Z → (0 ≤ i0)%Z →
  ∃ i e, k = (i0 + Z.of_nat i)%Z ∧ ws !! i = Some e ∧
         pathOf e = fullPath fileEntry ∧
         ∀ j e', j < i → ws !! j = Some e' → pathOf e' ≠ fullPath fileEntry.
Proof.
  revert i0. induction ws as [|d ws IH]; intros i0 Hk Hne Hpos; simpl in Hk.
  - congruence.
  - case_decide as Hd.
    + exists 0, d. split_and!; [lia|done|done|]. intros j e' Hj. lia.
    + destruct (IH (i0 + 1)%Z Hk Hne ltac:(lia)) as (i & e & -> & Hl & He & Hfirst).
      exists (S i), e. split_and!; [lia|done|done|].
      intros [|j] e' Hj Hl'; simpl in Hl'.
      * by injection Hl' as <-.
      * apply (Hfirst j e'); [lia|done].
Qed.

Lemma findFrom_absent_inv ws fileEntry i0 :
  findFrom i0 ws fileEntry = (-1)%Z → (0 ≤ i0)%Z →
  ∀ e, e ∈ ws → pathOf e ≠ fullPath fileEntry.
Proof.
  revert i0. induction ws as [|d ws IH]; intros i0 Hk Hpos e He.
  - by apply elem_of_nil in He.
  - simpl in Hk. case_decide as Hd; [lia|].
    apply elem_of_cons in He as [->|He]; [done|].
    eapply IH; [exact Hk|lia|done].
Qed.

Lemma jsIndex_of_nat {A} (a : list A) (i : nat) :
  jsIndex a (Z.of_nat i) = a !! i.
Proof.
  unfold jsIndex. destruct (Z.ltb_spec (Z.of_nat i) 0); [lia|].
  by rewrite Nat2Z.id.
Qed.

Lemma find_absent st fileEntry :
  _findInWorkingSet st fileEntry = (-1)%Z ↔
  ∀ e, e ∈ _workingSet st → pathOf e ≠ fullPath fileEntry.
Proof.
  split.
  - intros H. by eapply findFrom_absent_inv.
  - apply findFrom_absent.
Qed.

Lemma find_first st fileEntry i e :
  _workingSet st !! i = Some e →
  pathOf e = fullPath fileEntry →
  (∀ j e', j < i → _workingSet st !! j = Some e' → pathOf e' ≠ fullPath fileEntry) →
  _findInWorkingSet st fileEntry = Z.of_nat i.
Proof.
  intros. unfold _findInWorkingSet.
  by rewrite (findFrom_first _ _ 0%Z i e).
Qed.

Lemma find_present st fileEntry e :
  e ∈ _workingSet st → pathOf e = fullPath fileEntry →
  _findInWorkingSet st fileEntry ≠ (-1)%Z.
Proof.
  intros He Hp Hf. rewrite find_absent in Hf. by apply (Hf e).
Qed.

Lemma find_same_path st f1 f2 :
  fullPath f1 = fullPath f2 →
  _findInWorkingSet st f1 = _findInWorkingSet st f2.
Proof.
  intros Hp. unfold _findInWorkingSet. generalize 0%Z.
  induction (_workingSet st) as [|d ws IH]; intros i; simpl; [done|].
  rewrite Hp. case_decide; [done|apply IH].
Qed.

Lemma find_same_ws st1 st2 fileEntry :
  _workingSet st1 = _workingSet st2 →
  _findInWorkingSet st1 fileEntry = _findInWorkingSet st2 fileEntry.
Proof. unfold _findInWorkingSet. by intros ->. Qed.

(** ** Adding and removing *)

Lemma addToWorkingSet_present document st :
  _findInWorkingSet st (file document) ≠ (-1)%Z →
  addToWorkingSet document st = st.
Proof. intros H. unfold addToWorkingSet. by rewrite decide_False. Qed.

Lemma addToWorkingSet_absent document st :
  _findInWorkingSet st (file document) = (-1)%Z →
  addToWorkingSet document st =
  trigger (workingSetAdd document)
    (setWorkingSet (_workingSet st ++ [document]) st).
Proof. intros H. unfold addToWorkingSet. by rewrite decide_True. Qed.

Lemma addToWorkingSet_current document st :
  _currentDocument (addToWorkingSet document st) = _currentDocument st.
Proof. unfold addToWorkingSet. by case_decide. Qed.

Lemma addToWorkingSet_member document st :
  _findInWorkingSet (addToWorkingSet document st) (file document) ≠ (-1)%Z.
Proof.
  unfold addToWorkingSet. case_decide as H; [|done].
  apply (find_present _ _ document); [|done].
  simpl. apply elem_of_app. right. apply list_elem_of_here.
Qed.

Lemma count_path_absent (ws : list Document) p :
  (∀ e, e ∈ ws → pathOf e ≠ p) →
  filter (λ e, pathOf e = p) ws = [].
Proof.
  induction ws as [|d ws IH]; intros Hno; [done|].
  rewrite filter_cons_False.
  - apply IH. intros e He. apply Hno. by apply list_elem_of_further.
  - apply Hno. apply list_elem_of_here.
Qed.

Lemma count_path_nodup (ws : list Document) d :
  NoDup (pathOf <$> ws) → d ∈ ws →
  length (filter (λ e, pathOf e = pathOf d) ws) = 1.
Proof.
  induction ws as [|x ws IH]; intros Hnd Hd.
  - by apply elem_of_nil in Hd.
  - rewrite fmap_cons in Hnd. apply NoDup_cons in Hnd as [Hx Hnd].
    destruct (decide (pathOf x = pathOf d)) as [Heq|Hne].
    + rewrite filter_cons_True by exact Heq.
      rewrite count_path_absent; [done|].
      intros e He Hp. apply Hx. rewrite Heq, <- Hp.
      apply list_elem_of_fmap. by exists e.
    + rewrite filter_cons_False by exact Hne.
      apply IH; [done|].
      apply elem_of_cons in Hd as [->|Hd]; [done|exact Hd].
Qed.

(** C8. [addToWorkingSet] is idempotent by file path.  For two documents
    of the same path, the second of two calls changes nothing (state and
    notifications); neither call changes the current document; afterwards
    the working set holds exactly one entry of that path; when the path
    was not there before, the first document was appended at the end and
    the two calls together emitted exactly one [workingSetAdd]; when it
    was there, nothing happened at all. *)
Theorem addToWorkingSet_idempotent st d1 d2 :
  pathOf d1 = pathOf d2 →
  NoDup (pathOf <$> _workingSet st) →
  let st1 := addToWorkingSet d1 st in
  let st2 := addToWorkingSet d2 st1 in
  st2 = st1 ∧
  _currentDocument st1 = _currentDocument st ∧
  _currentDocument st2 = _currentDocument st ∧
  length (filter (λ e, pathOf e = pathOf d1) (_workingSet st2)) = 1 ∧
  (_findInWorkingSet st (file d1) = (-1)%Z →
     _workingSet st2 = _workingSet st ++ [d1] ∧
     events st2 = events st ++ [workingSetAdd d1]) ∧
  (_findInWorkingSet st (file d1) ≠ (-1)%Z → st2 = st).
Proof.
  intros Hp Hnd st1 st2.
  assert (Hsame : st2 = st1).
  { subst st2. apply addToWorkingSet_present.
    rewrite <- (find_same_path _ (file d1) (file d2) Hp).
    apply (addToWorkingSet_member d1 st). }
  rewrite Hsame. subst st1.
  split_and!; [done|apply addToWorkingSet_current..| | |].
  - destruct (decide (_findInWorkingSet st (file d1) = (-1)%Z)) as [Habs|Hin].
    + rewrite addToWorkingSet_absent by exact Habs. simpl.
      rewrite filter_app, count_path_absent.
      * by rewrite filter_cons_True.
      * by apply find_absent.
    + rewrite addToWorkingSet_present by exact Hin.
      destruct (findFrom_inv _ _ _ _ eq_refl Hin ltac:(lia))
        as (i & e & _ & Hl & He & _).
      rewrite <- (count_path_nodup _ e Hnd); [|by eapply list_elem_of_lookup_2].
      f_equal. apply list_filter_iff. intros x. unfold pathOf in *. by rewrite He.
  - intros Habs. by rewrite addToWorkingSet_absent.
  - intros Hin. by apply addToWorkingSet_present.
Qed.

(** ** Closing a document *)

Section Close.

Variable isWithinProject : string -> bool.

Lemma showInEditor_current d st :
  _currentDocument (showInEditor isWithinProject d st) = Some d.
Proof. unfold showInEditor. by case_decide. Qed.

Lemma showInEditor_member_ws d st :
  _findInWorkingSet st (file d) ≠ (-1)%Z →
  _workingSet (showInEditor isWithinProject d st) = _workingSet st.
Proof.
  intros Hin. unfold showInEditor. case_decide; [done|].
  rewrite addToWorkingSet_present by exact Hin. by destruct isWithinProject.
Qed.

Lemma _clearEditor_current st :
  _currentDocument (_clearEditor st) = None.
Proof. unfold _clearEditor. by destruct (_currentDocument st) eqn:E. Qed.

Lemma _clearEditor_ws st :
  _workingSet (_clearEditor st) = _workingSet st.
Proof. unfold _clearEditor. by destruct (_currentDocument st). Qed.

Lemma consoleAssert_ws b st :
  _workingSet (consoleAssert b st) = _workingSet st.
Proof. by destruct b. Qed.

Lemma consoleAssert_current b st :
  _currentDocument (consoleAssert b st) = _currentDocument st.
Proof. by destruct b. Qed.

Lemma _removeFromWorkingSet_current d st :
  _currentDocument (_removeFromWorkingSet d st) = _currentDocument st.
Proof. unfold _removeFromWorkingSet. by case_decide. Qed.

Lemma closeDocument_current_eq d st :
  _currentDocument (closeDocument isWithinProject d st) =
  _currentDocument (switchAway isWithinProject d st).
Proof.
  unfold closeDocument.
  by rewrite _removeFromWorkingSet_current, consoleAssert_current.
Qed.

Lemma switchAway_ws_of_member d st n :
  _currentDocument st = Some d →
  nextDocument d st = Some n →
  n ∈ _workingSet st →
  _workingSet (switchAway isWithinProject d st) = _workingSet st ∧
  _currentDocument (switchAway isWithinProject d st) = Some n.
Proof.
  intros Hcur Hnext Hn. unfold switchAway.
  rewrite decide_True by exact Hcur. rewrite Hnext. split.
  - apply showInEditor_member_ws. by apply (find_present _ _ n).
  - apply showInEditor_current.
Qed.

Lemma switchAway_none d st :
  _currentDocument st = Some d →
  nextDocument d st = None →
  _workingSet (switchAway isWithinProject d st) = _workingSet st ∧
  _currentDocument (switchAway isWithinProject d st) = None.
Proof.
  intros Hcur Hnext. unfold switchAway.
  rewrite decide_True by exact Hcur. rewrite Hnext. split.
  - apply _clearEditor_ws.
  - apply _clearEditor_current.
Qed.

Lemma nextDocument_absent d st :
  _findInWorkingSet st (file d) = (-1)%Z →
  nextDocument d st = last (_workingSet st).
Proof.
  intros Habs. unfold nextDocument. rewrite decide_True by exact Habs.
  destruct (Z.ltb_spec 0 (Z.of_nat (length (_workingSet st)))) as [Hlen|Hlen].
  - replace (Z.of_nat (length (_workingSet st)) - 1)%Z
      with (Z.of_nat (pred (length (_workingSet st)))) by lia.
    by rewrite jsIndex_of_nat, last_lookup.
  - destruct (_workingSet st); [done|simpl in Hlen; lia].
Qed.

Lemma nextDocument_at d st (i : nat) :
  _findInWorkingSet st (file d) = Z.of_nat i →
  i < length (_workingSet st) →
  nextDocument d st =
  match _workingSet st !! S i with
  | Some n => Some n
  | None => match i with 0 => None | S j => _workingSet st !! j end
  end.
Proof.
  intros Hi Hlt. unfold nextDocument. rewrite Hi.
  rewrite decide_False by lia.
  destruct (Z.ltb_spec (Z.of_nat i) (Z.of_nat (length (_workingSet st)) - 1)) as [Hn|Hn].
  - replace (Z.of_nat i + 1)%Z with (Z.of_nat (S i)) by lia.
    rewrite jsIndex_of_nat.
    destruct (lookup_lt_is_Some_2 (_workingSet st) (S i) ltac:(lia)) as [n ->].
    done.
  - rewrite (lookup_ge_None_2 _ (S i)) by lia.
    destruct i as [|j]; [done|].
    rewrite (proj2 (Z.ltb_lt 0 (Z.of_nat (S j)))) by lia.
    replace (Z.of_nat (S j) - 1)%Z with (Z.of_nat j) by lia.
    apply jsIndex_of_nat.
Qed.

(** C1. [closeDocument(doc)] for the current document [doc].  When no
    working-set entry has [doc]'s path, the last entry becomes current
    (none for an empty set) and the working set stays as it is.  When
    the entry of [doc]'s path is at index [i], the entry at [i+1]
    becomes current if there is one, else the entry at [i-1] if there is
    one, else none; the working set loses the entry at [i] and keeps the
    others in their order. *)
Theorem closeDocument_current_document st doc :
  _currentDocument st = Some doc →
  let ws := _workingSet st in
  let st' := closeDocument isWithinProject doc st in
  ((∀ e, e ∈ ws → pathOf e ≠ pathOf doc) →
     _currentDocument st' = last ws ∧ _workingSet st' = ws) ∧
  (∀ i e,
     ws !! i = Some e → pathOf e = pathOf doc →
     (∀ j e', j < i → ws !! j = Some e' → pathOf e' ≠ pathOf doc) →
     _currentDocument st' =
       match ws !! S i with
       | Some n => Some n
       | None => match i with 0 => None | S j => ws !! j end
       end ∧
     _workingSet st' = take i ws ++ drop (S i) ws).
Proof.
  intros Hcur ws st'. subst ws st'. split.
  - intros Habs. apply find_absent in Habs.
    pose proof (nextDocument_absent doc st Habs) as Hnext.
    assert (Hsw : _workingSet (switchAway isWithinProject doc st) = _workingSet st ∧
                  _currentDocument (switchAway isWithinProject doc st)
                  = last (_workingSet st)).
    { destruct (last (_workingSet st)) as [n|] eqn:Hlast.
      - apply switchAway_ws_of_member; [done|done|].
        apply last_Some in Hlast as [l' ->].
        apply elem_of_app. right. apply list_elem_of_here.
      - by apply switchAway_none. }
    destruct Hsw as [Hws Hc]. rewrite closeDocument_current_eq. split; [done|].
    unfold closeDocument, _removeFromWorkingSet.
    rewrite decide_True; [by rewrite consoleAssert_ws|].
    rewrite <- Habs. apply find_same_ws. by rewrite consoleAssert_ws.
  - intros i e Hl He Hfirst.
    pose proof (find_first st (file doc) i e Hl He Hfirst) as Hfind.
    pose proof (lookup_lt_Some _ _ _ Hl) as Hlt.
    pose proof (nextDocument_at doc st i Hfind Hlt) as Hnext.
    set (pick := match _workingSet st !! S i with
                 | Some n => Some n
                 | None => match i with 0 => None | S j => _workingSet st !! j end
                 end) in *.
    assert (Hsw : _workingSet (switchAway isWithinProject doc st) = _workingSet st ∧
                  _currentDocument (switchAway isWithinProject doc st) = pick).
    { destruct pick as [n|] eqn:Hpick.
      - apply switchAway_ws_of_member; [done|done|].
        subst pick. destruct (_workingSet st !! S i) as [m|] eqn:Hm.
        + injection Hpick as <-. by eapply list_elem_of_lookup_2.
        + destruct i as [|j]; [done|]. by eapply list_elem_of_lookup_2.
      - by apply switchAway_none. }
    destruct Hsw as [Hws Hc]. rewrite closeDocument_current_eq. split; [done|].
    unfold closeDocument, _removeFromWorkingSet.
    assert (Hfind' : _findInWorkingSet
              (consoleAssert
                 (bool_decide (_currentDocument (switchAway isWithinProject doc st)
                               ≠ Some doc))
                 (switchAway isWithinProject doc st)) (file doc) = Z.of_nat i).
    { rewrite <- Hfind. apply find_same_ws. by rewrite consoleAssert_ws. }
    rewrite Hfind'. rewrite decide_False by lia. simpl.
    rewrite consoleAssert_ws, Hws, Nat2Z.id. apply delete_take_drop.
Qed.

(** C10. [closeDocument(doc)] for a document that is neither the
    current one nor, by path, in the working set changes nothing: the
    state after the call is the state before it, trace of notifications
    included. *)
Theorem closeDocument_untracked st doc :
  _currentDocument st ≠ Some doc →
  _findInWorkingSet st (file doc) = (-1)%Z →
  closeDocument isWithinProject doc st = st.
Proof.
  intros Hcur Habs. unfold closeDocument, switchAway.
  rewrite decide_False by exact Hcur.
  rewrite bool_decide_eq_true_2 by exact Hcur. simpl.
  unfold _removeFromWorkingSet. by rewrite decide_True.
Qed.

End Close.

(** ** The working set never holds a path twice *)

Lemma wsInv_same_ws st st' :
  _workingSet st' = _workingSet st → wsInv st → wsInv st'.
Proof. unfold wsInv. by intros ->. Qed.

Lemma addToWorkingSet_inv d st : wsInv st → wsInv (addToWorkingSet d st).
Proof.
  intros Hinv. unfold addToWorkingSet. case_decide as Habs; [|done].
  unfold wsInv. simpl. rewrite fmap_app. apply NoDup_app. split_and!.
  - exact Hinv.
  - intros p Hp Hd. simpl in Hd. apply list_elem_of_singleton in Hd as ->.
    apply list_elem_of_fmap in Hp as (e & He & Hin).
    rewrite find_absent in Habs. by apply (Habs e).
  - simpl. apply NoDup_singleton.
Qed.

Lemma _removeFromWorkingSet_inv d st :
  wsInv st → wsInv (_removeFromWorkingSet d st).
Proof.
  intros Hinv. unfold _removeFromWorkingSet. case_decide; [done|].
  unfold wsInv. simpl. eapply sublist_NoDup; [exact Hinv|].
  apply fmap_sublist, sublist_delete.
Qed.

Lemma _setEditor_ws this editor st :
  _workingSet (stateOf (_setEditor this editor st)) = _workingSet st.
Proof.
  unfold _setEditor. destruct editor as [w|]; [|done]. simpl.
  by destruct (widgets st !! w).
Qed.

Lemma _setEditor_current this editor st :
  _currentDocument (stateOf (_setEditor this editor st)) = _currentDocument st.
Proof.
  unfold _setEditor. destruct editor as [w|]; [|done]. simpl.
  by destruct (widgets st !! w).
Qed.

Lemma newDocument_ws fileEntry editor st :
  _workingSet (stateOf (newDocument fileEntry editor st)) = _workingSet st.
Proof.
  unfold newDocument. destruct (getDocumentForFile st fileEntry); [done|].
  match goal with |- context [_setEditor ?t ?e ?s] =>
    pose proof (_setEditor_ws t e s) as H; destruct (_setEditor t e s) end;
    exact H.
Qed.

Lemma newDocument_current fileEntry editor st :
  _currentDocument (stateOf (newDocument fileEntry editor st)) = _currentDocument st.
Proof.
  unfold newDocument. destruct (getDocumentForFile st fileEntry); [done|].
  match goal with |- context [_setEditor ?t ?e ?s] =>
    pose proof (_setEditor_current t e s) as H; destruct (_setEditor t e s) end;
    exact H.
Qed.

Lemma _updateDirty_inv this st :
  wsInv st → wsInv (stateOf (_updateDirty this st)).
Proof.
  intros Hinv. unfold _updateDirty.
  destruct (historySizeOf st this) as [h|]; [|done].
  set (st1 := if (_ && _)%bool then _ else st).
  assert (Hst1 : wsInv st1) by (subst st1; by destruct (_ && _)%bool).
  clearbody st1.
  destruct (Bool.eqb _ _); [done|]. simpl.
  destruct (negb _); [|done]. by apply addToWorkingSet_inv.
Qed.

Lemma markClean_inv this st :
  wsInv st → wsInv (stateOf (markClean this st)).
Proof.
  intros Hinv. unfold markClean.
  destruct (historySizeOf st this) as [h|]; [|done].
  by apply _updateDirty_inv.
Qed.

Lemma editorChanged_inv w h st :
  wsInv st → wsInv (stateOf (editorChanged w h st)).
Proof.
  intros Hinv. unfold editorChanged.
  destruct (widgets st !! w) as [cm|]; [|done].
  destruct (onChange cm); [|done]. by apply _updateDirty_inv.
Qed.

Section Invariant.

Variable isWithinProject : string -> bool.
Variable getFile : string -> option FileEntry.

Lemma showInEditor_inv d st :
  wsInv st → wsInv (showInEditor isWithinProject d st).
Proof.
  intros Hinv. unfold showInEditor. case_decide; [done|].
  destruct isWithinProject; [done|].
  eapply wsInv_same_ws; [|by apply (addToWorkingSet_inv d)]. done.
Qed.

Lemma switchAway_inv d st :
  wsInv st → wsInv (switchAway isWithinProject d st).
Proof.
  intros Hinv. unfold switchAway. case_decide; [|done].
  destruct (nextDocument d st).
  - by apply showInEditor_inv.
  - eapply wsInv_same_ws; [apply _clearEditor_ws|done].
Qed.

Lemma closeDocument_inv d st :
  wsInv st → wsInv (closeDocument isWithinProject d st).
Proof.
  intros Hinv. unfold closeDocument. apply _removeFromWorkingSet_inv.
  eapply wsInv_same_ws; [apply consoleAssert_ws|]. by apply switchAway_inv.
Qed.

Lemma addExisting_inv slots af ad st :
  wsInv st → wsInv (stateOf (addExisting slots af ad st)).
Proof.
  revert ad st. induction slots as [|s slots IH]; intros ad st Hinv; [done|].
  destruct s as [| |value]; simpl; [by apply IH..|].
  unfold bind at 1.
  pose proof (newDocument_ws value None st) as Hws.
  destruct (newDocument value None st) as [doc st'|e st']; simpl in Hws.
  - unfold bind at 1, lift. apply IH. apply addToWorkingSet_inv.
    by eapply wsInv_same_ws.
  - simpl. by eapply wsInv_same_ws.
Qed.

Lemma restoreDone_inv r st :
  wsInv st → wsInv (stateOf (restoreDone isWithinProject r st)).
Proof.
  intros Hinv. unfold restoreDone, bind.
  pose proof (addExisting_inv (filesToOpen r) (activeFile r) Undefined st Hinv) as H.
  destruct (addExisting _ _ _ st) as [ad st'|e st']; simpl in H; [|done].
  destruct ad as [| |d]; simpl.
  - done.
  - destruct (_workingSet st' !! 0); simpl; [by apply showInEditor_inv|done].
  - by apply showInEditor_inv.
Qed.

Lemma _init_inv prefs order st :
  wsInv st → wsInv (stateOf (_init isWithinProject getFile prefs order st)).
Proof.
  intros Hinv. unfold _init. destruct prefs as [files|]; [|done].
  destruct (awaitAll getFile files order noResponse); [|done].
  by apply restoreDone_inv.
Qed.

Lemma step_wsInv st st' :
  step isWithinProject getFile st st' → wsInv st → wsInv st'.
Proof.
  intros Hstep Hinv. destruct Hstep.
  - done.
  - eapply wsInv_same_ws; [apply newDocument_ws|done].
  - by apply addToWorkingSet_inv.
  - by apply showInEditor_inv.
  - by apply closeDocument_inv.
  - by apply editorChanged_inv.
  - by apply markClean_inv.
  - by apply _init_inv.
  - eapply wsInv_same_ws; [apply _setEditor_ws|done].
Qed.

Lemma reachable_wsInv st :
  reachable isWithinProject getFile st → wsInv st.
Proof.
  induction 1 as [|st st' _ IH Hstep].
  - apply NoDup_nil_2.
  - by eapply step_wsInv.
Qed.

Lemma nextDocument_member d st n :
  nextDocument d st = Some n → n ∈ _workingSet st.
Proof.
  unfold nextDocument, jsIndex.
  repeat (case_decide || case_match); intros Hn; try done;
    by eapply list_elem_of_lookup_2.
Qed.

Lemma switchAway_current d st :
  _currentDocument st = Some d →
  _currentDocument (switchAway isWithinProject d st) = nextDocument d st.
Proof.
  intros Hcur. unfold switchAway. rewrite decide_True by exact Hcur.
  destruct (nextDocument d st).
  - apply showInEditor_current.
  - apply _clearEditor_current.
Qed.

Lemma nextDocument_other_path d st n :
  wsInv st → nextDocument d st = Some n → pathOf n ≠ pathOf d.
Proof.
  intros Hinv Hnext.
  destruct (decide (_findInWorkingSet st (file d) = (-1)%Z)) as [Habs|Hin].
  - rewrite find_absent in Habs. apply Habs. by eapply nextDocument_member.
  - destruct (findFrom_inv _ _ _ _ eq_refl Hin ltac:(lia))
      as (i & e & Hi & Hl & He & _).
    rewrite (nextDocument_at d st i) in Hnext;
      [|exact Hi|by eapply lookup_lt_Some].
    intros Hp.
    assert (Hpe : (pathOf <$> _workingSet st) !! i = Some (pathOf d)).
    { rewrite list_lookup_fmap, Hl. simpl. by rewrite He. }
    destruct (_workingSet st !! S i) as [m|] eqn:Hm.
    + injection Hnext as ->.
      assert (Hpn : (pathOf <$> _workingSet st) !! S i = Some (pathOf d)).
      { rewrite list_lookup_fmap, Hm. simpl. by rewrite Hp. }
      pose proof (NoDup_lookup _ _ _ _ Hinv Hpe Hpn). lia.
    + destruct i as [|j]; [done|].
      assert (Hpn : (pathOf <$> _workingSet st) !! j = Some (pathOf d)).
      { rewrite list_lookup_fmap, Hnext. simpl. by rewrite Hp. }
      pose proof (NoDup_lookup _ _ _ _ Hinv Hpe Hpn). lia.
Qed.

(** C7. In every reachable state and for every [doc], after the first
    statement of [closeDocument(doc)] the current document is not [doc]:
    the [console.assert] that follows holds, so that the call is the
    removal applied to the state the first statement leaves. *)
Theorem closeDocument_assertion_holds st doc :
  reachable isWithinProject getFile st →
  _currentDocument (switchAway isWithinProject doc st) ≠ Some doc ∧
  consoleAssert
    (bool_decide (_currentDocument (switchAway isWithinProject doc st) ≠ Some doc))
    (switchAway isWithinProject doc st)
  = switchAway isWithinProject doc st ∧
  closeDocument isWithinProject doc st
  = _removeFromWorkingSet doc (switchAway isWithinProject doc st).
Proof.
  intros Hreach. apply reachable_wsInv in Hreach.
  assert (Hne : _currentDocument (switchAway isWithinProject doc st) ≠ Some doc).
  { destruct (decide (_currentDocument st = Some doc)) as [Hcur|Hcur].
    - rewrite switchAway_current by exact Hcur.
      destruct (nextDocument doc st) as [n|] eqn:Hnext; [|done].
      intros [= ->]. by eapply nextDocument_other_path.
    - unfold switchAway. by rewrite decide_False. }
  split; [exact Hne|].
  unfold closeDocument. by rewrite bool_decide_eq_true_2.
Qed.

End Invariant.

(** ** The dirty bit *)

Lemma fieldsOf_writeFields this f st :
  fieldsOf (writeFields this f st) this = f.
Proof. unfold fieldsOf, writeFields. simpl. by rewrite lookup_insert_eq. Qed.

Lemma fieldsOf_writeFields_other this d f st :
  docId d ≠ docId this →
  fieldsOf (writeFields this f st) d = fieldsOf st d.
Proof.
  intros Hne. unfold fieldsOf, writeFields. simpl.
  by rewrite lookup_insert_ne.
Qed.

Lemma writeFields_same this f st :
  docFields st !! docId this = Some f → writeFields this f st = st.
Proof.
  intros Hf. unfold writeFields, setDocFields.
  rewrite insert_id by exact Hf. by destruct st.
Qed.

Lemma historySizeOf_attached st this w cm :
  _editor (fieldsOf st this) = Some w → widgets st !! w = Some cm →
  historySizeOf st this = Some (history cm).
Proof. intros He Hw. unfold historySizeOf. by rewrite He, Hw. Qed.

(** What one call of [_updateDirty] does to a document whose editor is
    attached. *)
Lemma _updateDirty_spec st this w cm :
  _editor (fieldsOf st this) = Some w → widgets st !! w = Some cm →
  let f := fieldsOf st this in
  let u := undo (history cm) in
  let saved' :=
    if ((u <? _savedUndoPosition f)%Z && (redo (history cm) =? 0)%Z)%bool
    then (-1)%Z else _savedUndoPosition f in
  let dirty' := negb (u =? saved')%Z in
  let becameDirty := (negb (isDirty f) && dirty')%bool in
  let absent := bool_decide (_findInWorkingSet st (file this) = (-1)%Z) in
  ∃ st',
    _updateDirty this st = Returned tt st' ∧
    fieldsOf st' this =
      {| isDirty := dirty'; _editor := Some w; _savedUndoPosition := saved' |} ∧
    (∀ d, docId d ≠ docId this → fieldsOf st' d = fieldsOf st d) ∧
    widgets st' = widgets st ∧
    _currentDocument st' = _currentDocument st ∧
    _workingSet st' =
      (if (becameDirty && absent)%bool then _workingSet st ++ [this]
       else _workingSet st) ∧
    events st' =
      events st ++
      (if Bool.eqb (isDirty f) dirty' then []
       else dirtyFlagChange this ::
            (if (becameDirty && absent)%bool then [workingSetAdd this] else [])).
Proof.
  intros He Hw f u saved' dirty' becameDirty absent.
  unfold _updateDirty. rewrite (historySizeOf_attached st this w cm He Hw).
  fold u. fold f. change (_editor f = Some w) in He.
  assert (Hfdef : fieldsOf st this = f) by done. clearbody f.
  set (st1 := if ((u <? _savedUndoPosition f)%Z && (redo (history cm) =? 0)%Z)%bool
              then writeFields this (withSaved (-1) f) st else st).
  assert (Hf1 : fieldsOf st1 this =
                {| isDirty := isDirty f; _editor := Some w;
                   _savedUndoPosition := saved' |}).
  { subst st1 saved'. destruct (_ && _)%bool.
    - rewrite fieldsOf_writeFields. unfold withSaved. by rewrite He.
    - rewrite Hfdef. destruct f as [a b c]. simpl in *. by rewrite He. }
  assert (Hother1 : ∀ d, docId d ≠ docId this → fieldsOf st1 d = fieldsOf st d).
  { intros d Hd. subst st1. destruct (_ && _)%bool; [|done].
    by apply fieldsOf_writeFields_other. }
  assert (Hrest1 : widgets st1 = widgets st ∧
                   _currentDocument st1 = _currentDocument st ∧
                   _workingSet st1 = _workingSet st ∧ events st1 = events st).
  { subst st1. by destruct (_ && _)%bool. }
  destruct Hrest1 as (Hw1 & Hc1 & Hws1 & Hev1).
  clearbody st1. rewrite Hf1. simpl. fold dirty'. clearbody dirty'.
  destruct (Bool.eqb (isDirty f) dirty') eqn:Heqb.
  - exists st1. apply Bool.eqb_prop in Heqb.
    assert (becameDirty = false) as ->.
    { subst becameDirty. rewrite Heqb. by destruct dirty'. }
    simpl. rewrite app_nil_r. split_and!; try done.
    by rewrite Hf1, Heqb.
  - assert (Hflip : isDirty f = negb dirty').
    { destruct (isDirty f), dirty'; simpl in *; congruence. }
    assert (becameDirty = dirty') as ->.
    { subst becameDirty. rewrite Hflip. by destruct dirty'. }
    set (st2 := trigger (dirtyFlagChange this)
                  (writeFields this
                     (withDirty dirty'
                        {| isDirty := isDirty f; _editor := Some w;
                           _savedUndoPosition := saved' |}) st1)).
    assert (Hfind2 : _findInWorkingSet st2 (file this)
                     = _findInWorkingSet st (file this)).
    { apply find_same_ws. subst st2. simpl. exact Hws1. }
    destruct dirty' eqn:Hd; simpl.
    + exists (addToWorkingSet this st2). split; [done|].
      unfold addToWorkingSet. rewrite Hfind2. subst absent.
      case_decide as Habs.
      * rewrite bool_decide_eq_true_2 by exact Habs. subst st2. simpl.
        split_and!; try done.
        -- unfold fieldsOf. simpl. by rewrite lookup_insert_eq.
        -- intros d Hne. rewrite <- (Hother1 d Hne).
           unfold fieldsOf. simpl. by rewrite lookup_insert_ne.
        -- by rewrite Hws1.
        -- by rewrite Hev1, <- app_assoc.
      * rewrite bool_decide_eq_false_2 by exact Habs. subst st2. simpl.
        split_and!; try done.
        -- unfold fieldsOf. simpl. by rewrite lookup_insert_eq.
        -- intros d Hne. rewrite <- (Hother1 d Hne).
           unfold fieldsOf. simpl. by rewrite lookup_insert_ne.
        -- by rewrite Hev1.
    + exists st2. subst st2. simpl. split_and!; try done.
      * unfold fieldsOf. simpl. by rewrite lookup_insert_eq.
      * intros d Hne. rewrite <- (Hother1 d Hne).
        unfold fieldsOf. simpl. by rewrite lookup_insert_ne.
      * by rewrite Hev1.
Qed.

(** *** Operations that leave the flags alone *)

Lemma quiet_refl st : quiet st st.
Proof.
  split_and!; [done| |done]. exists []. split; [by rewrite app_nil_r|].
  intros d Hd. by apply elem_of_nil in Hd.
Qed.

Lemma quiet_trans st1 st2 st3 : quiet st1 st2 → quiet st2 st3 → quiet st1 st3.
Proof.
  intros (Hlen1 & (evs1 & Hev1 & Hno1) & Hf1) (Hlen2 & (evs2 & Hev2 & Hno2) & Hf2).
  split_and!; [lia| |].
  - exists (evs1 ++ evs2). split; [by rewrite Hev2, Hev1, app_assoc|].
    intros d Hd. apply elem_of_app in Hd as [Hd|Hd]; [by apply (Hno1 d)|by apply (Hno2 d)].
  - intros d Hd. rewrite Hf2 by lia. by apply Hf1.
Qed.

Lemma quiet_same st st' :
  documents st' = documents st → events st' = events st →
  (∀ d, isDirty (fieldsOf st' d) = isDirty (fieldsOf st d)) →
  quiet st st'.
Proof.
  intros Hd He Hf. split_and!; [by rewrite Hd| |by intros].
  exists []. split; [by rewrite app_nil_r|].
  intros d Hin. by apply elem_of_nil in Hin.
Qed.

Lemma quiet_trigger e st :
  (∀ d, e ≠ dirtyFlagChange d) → quiet st (trigger e st).
Proof.
  intros He. split_and!; [done| |done]. exists [e]. split; [done|].
  intros d Hd. apply list_elem_of_singleton in Hd. by apply (He d).
Qed.

Lemma addToWorkingSet_quiet d st : quiet st (addToWorkingSet d st).
Proof.
  unfold addToWorkingSet. case_decide; [|apply quiet_refl].
  eapply quiet_trans; [|by apply quiet_trigger]. by apply quiet_same.
Qed.

Lemma _removeFromWorkingSet_quiet d st : quiet st (_removeFromWorkingSet d st).
Proof.
  unfold _removeFromWorkingSet. case_decide; [apply quiet_refl|].
  eapply quiet_trans; [|by apply quiet_trigger]. by apply quiet_same.
Qed.

Lemma _setEditor_quiet this editor st :
  quiet st (stateOf (_setEditor this editor st)).
Proof.
  unfold _setEditor. destruct editor as [w|]; [|apply quiet_refl]. simpl.
  destruct (widgets st !! w); simpl; apply quiet_same; try done; intros d;
    unfold fieldsOf; simpl;
    (destruct (decide (docId this = docId d)) as [->|Hne];
     [by rewrite ?lookup_insert_eq|by rewrite ?lookup_insert_ne by done]).
Qed.

Lemma newDocument_quiet fileEntry editor st :
  quiet st (stateOf (newDocument fileEntry editor st)).
Proof.
  unfold newDocument.
  destruct (getDocumentForFile st fileEntry); [apply quiet_refl|].
  assert (Hframe : ∀ (m : gmap nat DocFields) (d : Document),
            docId d < length (documents st) →
            default prototype (m !! docId d) =
            default prototype (delete (length (documents st)) m !! docId d)).
  { intros m d Hd. by rewrite lookup_delete_ne by lia. }
  unfold _setEditor. destruct editor as [w|]; simpl.
  - destruct (widgets st !! w); simpl.
    + split_and!; simpl.
      * rewrite length_app. simpl. lia.
      * exists []. split; [by rewrite app_nil_r|]. intros d Hd. by apply elem_of_nil in Hd.
      * intros d Hd. unfold fieldsOf. simpl.
        rewrite !lookup_insert_ne by lia. by rewrite <- Hframe.
    + split_and!; simpl.
      * rewrite length_app. simpl. lia.
      * exists []. split; [by rewrite app_nil_r|]. intros d Hd. by apply elem_of_nil in Hd.
      * intros d Hd. unfold fieldsOf. simpl.
        rewrite !lookup_insert_ne by lia. by rewrite <- Hframe.
  - split_and!; simpl.
    + rewrite length_app. simpl. lia.
    + exists []. split; [by rewrite app_nil_r|]. intros d Hd. by apply elem_of_nil in Hd.
    + intros d Hd. unfold fieldsOf. simpl. by rewrite <- Hframe.
Qed.

Lemma quiet_flagsNotified st st' : quiet st st' → flagsNotified st st'.
Proof.
  intros (_ & (evs & Hev & Hno) & Hf). exists evs. split_and!; [done| |].
  - intros d Hd. rewrite Hf by done. split; [done|].
    intros (d' & Hd' & _). by apply Hno in Hd'.
  - intros d Hd. by apply Hno in Hd.
Qed.

(** A change of state that touches neither the flags, the trace nor the
    registry of documents may precede a notified step. *)
Lemma flagsNotified_after st st0 st' :
  events st0 = events st → length (documents st0) = length (documents st) →
  (∀ d, isDirty (fieldsOf st0 d) = isDirty (fieldsOf st d)) →
  flagsNotified st0 st' → flagsNotified st st'.
Proof.
  intros Hev Hlen Hf (evs & Hev' & Hiff & Hws). exists evs.
  rewrite <- Hev. split_and!; [done| |done].
  intros d Hd. rewrite <- Hf. apply Hiff. by rewrite Hlen.
Qed.

Lemma fieldsOf_same_id st d1 d2 :
  docId d1 = docId d2 → fieldsOf st d1 = fieldsOf st d2.
Proof. unfold fieldsOf. by intros ->. Qed.

Lemma historySizeOf_inv st this h :
  historySizeOf st this = Some h →
  ∃ w cm, _editor (fieldsOf st this) = Some w ∧ widgets st !! w = Some cm ∧
          h = history cm.
Proof.
  unfold historySizeOf. destruct (_editor (fieldsOf st this)) as [w|]; [|done].
  destruct (widgets st !! w) as [cm|] eqn:Hw; [|done].
  intros [= <-]. by exists w, cm.
Qed.

(** One change notification of the widget [w] whose [onChange] option is
    bound to [this]. *)
Lemma editorChanged_spec st w cm this h :
  widgets st !! w = Some cm → onChange cm = Some this →
  _editor (fieldsOf st this) = Some w →
  let f := fieldsOf st this in
  let saved' :=
    if ((undo h <? _savedUndoPosition f)%Z && (redo h =? 0)%Z)%bool
    then (-1)%Z else _savedUndoPosition f in
  let dirty' := negb (undo h =? saved')%Z in
  let becameDirty := (negb (isDirty f) && dirty')%bool in
  let absent := bool_decide (_findInWorkingSet st (file this) = (-1)%Z) in
  ∃ st',
    editorChanged w h st = Returned tt st' ∧
    fieldsOf st' this =
      {| isDirty := dirty'; _editor := Some w; _savedUndoPosition := saved' |} ∧
    (∀ d, docId d ≠ docId this → fieldsOf st' d = fieldsOf st d) ∧
    widgets st' = <[w := {| history := h; onChange := Some this |}]> (widgets st) ∧
    _currentDocument st' = _currentDocument st ∧
    _workingSet st' =
      (if (becameDirty && absent)%bool then _workingSet st ++ [this]
       else _workingSet st) ∧
    events st' =
      events st ++
      (if Bool.eqb (isDirty f) dirty' then []
       else dirtyFlagChange this ::
            (if (becameDirty && absent)%bool then [workingSetAdd this] else [])).
Proof.
  intros Hw Hon He f saved' dirty' becameDirty absent.
  unfold editorChanged. rewrite Hw, Hon.
  set (st1 := setWidgets _ st).
  destruct (_updateDirty_spec st1 this w {| history := h; onChange := Some this |})
    as (st' & Hrun & Hf & Hother & Hwid & Hcur & Hws & Hev).
  - exact He.
  - subst st1. simpl. apply lookup_insert_eq.
  - exists st'. split_and!; done.
Qed.

(** *** Every flip of a flag is notified *)

Lemma _updateDirty_flagsNotified this st :
  documents (stateOf (_updateDirty this st)) = documents st ∧
  flagsNotified st (stateOf (_updateDirty this st)).
Proof.
  destruct (historySizeOf st this) as [h|] eqn:Hh.
  - destruct (historySizeOf_inv st this h Hh) as (w & cm & He & Hw & ->).
    destruct (_updateDirty_spec st this w cm He Hw)
      as (st' & Hrun & Hf & Hother & _ & _ & Hws & Hev).
    rewrite Hrun. simpl. split.
    { clear -Hrun. unfold _updateDirty in Hrun.
      destruct (historySizeOf st this); [|done].
      repeat case_match; simplify_eq/=; unfold addToWorkingSet;
        repeat case_decide; done. }
    set (dirty' := negb _) in *. clearbody dirty'.
    eexists. split; [exact Hev|]. split.
    + intros d _. destruct (decide (docId d = docId this)) as [Hid|Hid].
      * rewrite !(fieldsOf_same_id _ d this Hid), Hf. simpl.
        destruct (Bool.eqb (isDirty (fieldsOf st this)) dirty') eqn:Heqb.
        -- apply Bool.eqb_prop in Heqb. split; [congruence|].
           intros (d' & Hd' & _). by apply elem_of_nil in Hd'.
        -- apply Bool.eqb_false_iff in Heqb. split; [|congruence].
           intros _. exists this. split; [apply list_elem_of_here|done].
      * rewrite Hother by done. split; [done|].
        intros (d' & Hd' & Hid'). exfalso.
        destruct (Bool.eqb _ _); [by apply elem_of_nil in Hd'|].
        apply elem_of_cons in Hd' as [[= ->]|Hd']; [congruence|].
        destruct (_ && bool_decide _)%bool.
        -- by apply list_elem_of_singleton in Hd'.
        -- by apply elem_of_nil in Hd'.
    + intros d Hd Hdirty.
      destruct (Bool.eqb (isDirty (fieldsOf st this)) dirty') eqn:Heqb;
        [by apply elem_of_nil in Hd|].
      assert (d = this) as ->.
      { apply elem_of_cons in Hd as [[= ->]|Hd]; [done|].
        destruct (_ && bool_decide _)%bool.
        - by apply list_elem_of_singleton in Hd.
        - by apply elem_of_nil in Hd. }
      rewrite Hf in Hdirty. simpl in Hdirty. subst dirty'.
      apply Bool.eqb_false_iff in Heqb.
      assert (Hclean : isDirty (fieldsOf st this) = false)
        by (by destruct (isDirty (fieldsOf st this))).
      rewrite Hclean in Hws. simpl in Hws.
      case_bool_decide as Habs; simpl in Hws.
      * apply (find_present _ _ this); [|done].
        rewrite Hws. apply elem_of_app. right. apply list_elem_of_here.
      * by rewrite (find_same_ws st' st _ Hws).
  - unfold _updateDirty. rewrite Hh. simpl. split; [done|].
    apply quiet_flagsNotified, quiet_refl.
Qed.

Lemma editorChanged_flagsNotified w h st :
  documents (stateOf (editorChanged w h st)) = documents st ∧
  flagsNotified st (stateOf (editorChanged w h st)).
Proof.
  unfold editorChanged. destruct (widgets st !! w) as [cm|].
  - destruct (onChange cm) as [this|].
    + match goal with |- context [_updateDirty this ?s] =>
        destruct (_updateDirty_flagsNotified this s) as [Hd Hn] end.
      split; [by rewrite Hd|]. eapply flagsNotified_after; [..|exact Hn]; done.
    + split; [done|]. apply quiet_flagsNotified. by apply quiet_same.
  - split; [done|]. apply quiet_flagsNotified, quiet_refl.
Qed.

Lemma markClean_flagsNotified this st :
  documents (stateOf (markClean this st)) = documents st ∧
  flagsNotified st (stateOf (markClean this st)).
Proof.
  unfold markClean. destruct (historySizeOf st this) as [h|].
  - match goal with |- context [_updateDirty this ?s] =>
      destruct (_updateDirty_flagsNotified this s) as [Hd Hn] end.
    split; [by rewrite Hd|]. eapply flagsNotified_after; [..|exact Hn]; [done|done|].
    intros d. destruct (decide (docId d = docId this)) as [Hid|Hid].
    + rewrite !(fieldsOf_same_id _ d this Hid). by rewrite fieldsOf_writeFields.
    + by rewrite fieldsOf_writeFields_other.
  - split; [done|]. apply quiet_flagsNotified, quiet_refl.
Qed.

Section Notified.

Variable isWithinProject : string -> bool.
Variable getFile : string -> option FileEntry.

Lemma showInEditor_quiet d st : quiet st (showInEditor isWithinProject d st).
Proof.
  unfold showInEditor. case_decide; [apply quiet_refl|].
  set (st1 := if isWithinProject _ then st else _).
  apply (quiet_trans _ st1).
  - subst st1. destruct isWithinProject; [apply quiet_refl|apply addToWorkingSet_quiet].
  - apply (quiet_trans _ (setCurrent (Some d) st1));
      [by apply quiet_same|by apply quiet_trigger].
Qed.

Lemma _clearEditor_quiet st : quiet st (_clearEditor st).
Proof.
  unfold _clearEditor. destruct (_currentDocument st); [|apply quiet_refl].
  apply (quiet_trans _ (setCurrent None st));
    [by apply quiet_same|by apply quiet_trigger].
Qed.

Lemma closeDocument_quiet d st : quiet st (closeDocument isWithinProject d st).
Proof.
  unfold closeDocument.
  eapply quiet_trans; [|apply _removeFromWorkingSet_quiet].
  apply (quiet_trans _ (switchAway isWithinProject d st)).
  - unfold switchAway. case_decide; [|apply quiet_refl].
    destruct (nextDocument d st); [apply showInEditor_quiet|apply _clearEditor_quiet].
  - unfold consoleAssert. destruct (bool_decide _); [apply quiet_refl|].
    by apply quiet_trigger.
Qed.

Lemma addExisting_quiet slots af :
  ∀ ad st, quiet st (stateOf (addExisting slots af ad st)).
Proof.
  induction slots as [|s slots IH]; intros ad st; [apply quiet_refl|].
  destruct s as [| |value]; cbn [addExisting]; [apply IH..|].
  unfold bind at 1.
  pose proof (newDocument_quiet value None st) as Hnew.
  destruct (newDocument value None st) as [doc st0|e st0]; simpl in Hnew; [|done].
  unfold bind at 1, lift.
  eapply quiet_trans; [exact Hnew|].
  eapply quiet_trans; [apply addToWorkingSet_quiet|apply IH].
Qed.

Lemma _init_quiet prefs order st :
  quiet st (stateOf (_init isWithinProject getFile prefs order st)).
Proof.
  unfold _init. destruct prefs as [files|]; [|apply quiet_refl].
  destruct (awaitAll getFile files order noResponse) as [r|]; [|apply quiet_refl].
  unfold restoreDone, bind.
  pose proof (addExisting_quiet (filesToOpen r) (activeFile r) Undefined st) as Hq.
  destruct (addExisting _ _ _ st) as [ad st1|e st1]; simpl in Hq; [|done].
  destruct ad as [| |d]; simpl; [done| |].
  - destruct (_workingSet st1 !! 0); simpl; [|done].
    eapply quiet_trans; [exact Hq|apply showInEditor_quiet].
  - eapply quiet_trans; [exact Hq|apply showInEditor_quiet].
Qed.

Lemma step_flagsNotified st st' :
  step isWithinProject getFile st st' → flagsNotified st st'.
Proof.
  intros Hstep. destruct Hstep.
  - apply quiet_flagsNotified. by apply quiet_same.
  - apply quiet_flagsNotified, newDocument_quiet.
  - apply quiet_flagsNotified, addToWorkingSet_quiet.
  - apply quiet_flagsNotified, showInEditor_quiet.
  - apply quiet_flagsNotified, closeDocument_quiet.
  - apply editorChanged_flagsNotified.
  - apply markClean_flagsNotified.
  - apply quiet_flagsNotified, _init_quiet.
  - apply quiet_flagsNotified, _setEditor_quiet.
Qed.

(** C5. A change notification that arrives at a document with its editor
    attached returns; if it takes [isDirty] from [false] to [true], the
    working set holds an entry of the document's path right afterwards
    (the document itself, appended at the end, when its path was not
    there yet); it emits [dirtyFlagChange] for this document, once and
    first, exactly when the flag changes value, and leaves the flag of
    every other document alone.  Over every step of the module: the flag
    of an existing document changes exactly when a [dirtyFlagChange] for
    it is emitted during the step. *)
Theorem dirty_flag_change_is_notified :
  (∀ st w cm this h,
     widgets st !! w = Some cm → onChange cm = Some this →
     _editor (fieldsOf st this) = Some w →
     ∃ st',
       editorChanged w h st = Returned tt st' ∧
       (isDirty (fieldsOf st this) = false → isDirty (fieldsOf st' this) = true →
          _findInWorkingSet st' (file this) ≠ (-1)%Z ∧
          (∃ e, e ∈ _workingSet st' ∧ pathOf e = pathOf this) ∧
          (_findInWorkingSet st (file this) = (-1)%Z →
           _workingSet st' = _workingSet st ++ [this])) ∧
       (isDirty (fieldsOf st this) ≠ isDirty (fieldsOf st' this) →
          ∃ rest, events st' = events st ++ dirtyFlagChange this :: rest ∧
                  ∀ d, dirtyFlagChange d ∉ rest) ∧
       (isDirty (fieldsOf st this) = isDirty (fieldsOf st' this) →
          events st' = events st) ∧
       (∀ d, docId d ≠ docId this →
          isDirty (fieldsOf st' d) = isDirty (fieldsOf st d))) ∧
  (∀ st st', step isWithinProject getFile st st' → flagsNotified st st').
Proof.
  split; [|apply step_flagsNotified].
  intros st w cm this h Hw Hon He.
  destruct (editorChanged_spec st w cm this h Hw Hon He)
    as (st' & Hrun & Hf & Hother & _ & _ & Hws & Hev).
  exists st'. split; [exact Hrun|]. rewrite Hf. simpl.
  set (dirty' := negb _) in *. clearbody dirty'.
  split_and!.
  - intros Hb Ha. rewrite Hb, Ha in Hws. simpl in Hws.
    assert (Hfind : _findInWorkingSet st' (file this) ≠ (-1)%Z).
    { case_bool_decide as Habs; simpl in Hws.
      - apply (find_present _ _ this); [|done].
        rewrite Hws. apply elem_of_app. right. apply list_elem_of_here.
      - by rewrite (find_same_ws st' st _ Hws). }
    split_and!; [exact Hfind| |].
    + destruct (findFrom_inv _ _ _ _ eq_refl Hfind ltac:(lia))
        as (i & e & _ & Hl & Hp & _).
      exists e. split; [by eapply list_elem_of_lookup_2|exact Hp].
    + intros Habs. by rewrite bool_decide_eq_true_2 in Hws.
  - intros Hne. rewrite (proj2 (Bool.eqb_false_iff _ _) Hne) in Hev.
    eexists. split; [exact Hev|].
    intros d Hd. destruct (_ && bool_decide _)%bool.
    + apply list_elem_of_singleton in Hd. discriminate.
    + by apply elem_of_nil in Hd.
  - intros Heq. rewrite (proj2 (Bool.eqb_true_iff _ _) Heq) in Hev.
    by rewrite app_nil_r in Hev.
  - intros d Hne. by rewrite Hother.
Qed.

End Notified.


Lemma _updateDirty_own this st st' d :
  _updateDirty this st = Returned tt st' →
  is_Some (docFields st !! docId d) → is_Some (docFields st' !! docId d).
Proof.
  unfold _updateDirty. intros Hrun Hsome.
  destruct (historySizeOf st this) as [h|]; [|done].
  set (st1 := if (_ && _)%bool then _ else st) in Hrun.
  assert (H1 : is_Some (docFields st1 !! docId d)).
  { subst st1. destruct (_ && _)%bool; [|done]. simpl.
    rewrite lookup_insert_is_Some. destruct (decide (docId this = docId d)); auto. }
  clearbody st1.
  destruct (Bool.eqb _ _); [by simplify_eq|].
  assert (H2 : is_Some (<[docId this :=
                 withDirty (negb (undo h =? _savedUndoPosition (fieldsOf st1 this))%Z)
                   (fieldsOf st1 this)]> (docFields st1) !! docId d)).
  { rewrite lookup_insert_is_Some. destruct (decide (docId this = docId d)); auto. }
  destruct (negb _); simplify_eq; [|exact H2].
  unfold addToWorkingSet. by case_decide.
Qed.

(** C9. On a document with its editor attached, [markClean()] returns
    and leaves [isDirty] false and [_savedUndoPosition] at the widget's
    undo depth; a second [markClean()] right after it returns the very
    same state: same watermark, same flag, no notification added. *)
Theorem markClean_idempotent st this w cm :
  _editor (fieldsOf st this) = Some w → widgets st !! w = Some cm →
  ∃ st1,
    markClean this st = Returned tt st1 ∧
    isDirty (fieldsOf st1 this) = false ∧
    _savedUndoPosition (fieldsOf st1 this) = undo (history cm) ∧
    markClean this st1 = Returned tt st1.
Proof.
  intros He Hw. unfold markClean at 1.
  rewrite (historySizeOf_attached st this w cm He Hw).
  set (st0 := writeFields this _ st).
  assert (He0 : _editor (fieldsOf st0 this) = Some w).
  { subst st0. by rewrite fieldsOf_writeFields. }
  assert (Hw0 : widgets st0 !! w = Some cm) by done.
  assert (Hs0 : _savedUndoPosition (fieldsOf st0 this) = undo (history cm)).
  { subst st0. by rewrite fieldsOf_writeFields. }
  destruct (_updateDirty_spec st0 this w cm He0 Hw0)
    as (st1 & Hrun & Hf & _ & Hwid & _ & _ & _).
  rewrite Hs0, Z.ltb_irrefl, Z.eqb_refl in Hf. simpl in Hf.
  exists st1. split; [exact Hrun|]. rewrite Hf. simpl. split_and!; try done.
  assert (Hown : docFields st1 !! docId this = Some (fieldsOf st1 this)).
  { destruct (_updateDirty_own this st0 st1 this Hrun) as [f1 Hf1].
    - subst st0. simpl. rewrite lookup_insert_eq. by eexists.
    - unfold fieldsOf. by rewrite Hf1. }
  unfold markClean. rewrite (historySizeOf_attached st1 this w cm).
  - rewrite writeFields_same.
    + unfold _updateDirty. rewrite (historySizeOf_attached st1 this w cm).
      * rewrite Hf. simpl. rewrite Z.ltb_irrefl. simpl.
        rewrite Hf. simpl. by rewrite Z.eqb_refl.
      * by rewrite Hf.
      * by rewrite Hwid.
    + rewrite Hown, Hf. done.
  - by rewrite Hf.
  - by rewrite Hwid.
Qed.

(** A document constructed with an editor starts clean, with the widget's
    undo depth as its watermark, and is the target of the widget's change
    notifications. *)
Lemma newDocument_with_editor st fileEntry w cm this st0 :
  widgets st !! w = Some cm →
  newDocument fileEntry (Some w) st = Returned this st0 →
  this = {| docId := length (documents st); file := fileEntry |} ∧
  fieldsOf st0 this =
    {| isDirty := false; _editor := Some w;
       _savedUndoPosition := undo (history cm) |} ∧
  widgets st0 !! w = Some {| history := history cm; onChange := Some this |} ∧
  _workingSet st0 = _workingSet st ∧
  _currentDocument st0 = _currentDocument st ∧
  events st0 = events st.
Proof.
  intros Hw. unfold newDocument.
  destruct (getDocumentForFile st fileEntry); [done|].
  unfold _setEditor. simpl. rewrite Hw. intros [= <- <-]. simpl.
  split_and!; try done.
  - unfold fieldsOf. simpl. rewrite !lookup_insert_eq. simpl.
    by rewrite lookup_delete_eq.
  - apply lookup_insert_eq.
Qed.

(** While the watermark is not above 0 no undo depth is below it: the
    watermark stays, and after each notification the flag says whether the
    undo depth differs from it. *)
Lemma editorChanges_low_watermark this w hs :
  ∀ st,
    _editor (fieldsOf st this) = Some w →
    (∃ cm, widgets st !! w = Some cm ∧ onChange cm = Some this) →
    (_savedUndoPosition (fieldsOf st this) ≤ 0)%Z →
    Forall (λ h, (0 ≤ undo h)%Z) hs →
    ∃ st',
      editorChanges w hs st = Returned tt st' ∧
      _savedUndoPosition (fieldsOf st' this) = _savedUndoPosition (fieldsOf st this) ∧
      isDirty (fieldsOf st' this) =
        match last hs with
        | Some h => negb (undo h =? _savedUndoPosition (fieldsOf st this))%Z
        | None => isDirty (fieldsOf st this)
        end.
Proof.
  induction hs as [|h hs IH]; intros st He (cm & Hw & Hon) Hlow Hpos.
  - exists st. by split_and!.
  - apply Forall_cons in Hpos as [Hh Hpos].
    destruct (editorChanged_spec st w cm this h Hw Hon He)
      as (st1 & Hrun & Hf & _ & Hwid & _ & _ & _).
    rewrite (proj2 (Z.ltb_ge _ _)) in Hf by lia. simpl in Hf.
    destruct (IH st1) as (st' & Hrun' & Hsaved & Hdirty).
    + by rewrite Hf.
    + eexists. rewrite Hwid, lookup_insert_eq. by split.
    + by rewrite Hf.
    + exact Hpos.
    + exists st'. simpl. unfold bind. rewrite Hrun. split; [exact Hrun'|].
      rewrite Hf in Hsaved, Hdirty. simpl in Hsaved, Hdirty.
      split; [exact Hsaved|].
      rewrite last_cons. by destruct (last hs).
Qed.

(** X17.  Once a notification finds the undo depth below the watermark and the
    redo stack empty, the watermark is [-1] and the flag stays [true]
    under every later notification. *)
Lemma divergence_is_permanent st this w cm h hs :
  widgets st !! w = Some cm → onChange cm = Some this →
  _editor (fieldsOf st this) = Some w →
  (undo h < _savedUndoPosition (fieldsOf st this))%Z → redo h = 0%Z →
  (0 ≤ undo h)%Z → Forall (λ h, (0 ≤ undo h)%Z) hs →
  ∃ st',
    editorChanges w (h :: hs) st = Returned tt st' ∧
    _savedUndoPosition (fieldsOf st' this) = (-1)%Z ∧
    isDirty (fieldsOf st' this) = true.
Proof.
  intros Hw Hon He Hbelow Hredo Hh Hpos.
  destruct (editorChanged_spec st w cm this h Hw Hon He)
    as (st1 & Hrun & Hf & _ & Hwid & _ & _ & _).
  rewrite (proj2 (Z.ltb_lt _ _) Hbelow), Hredo in Hf. simpl in Hf.
  destruct (editorChanges_low_watermark this w hs st1) as (st' & Hrun' & Hsaved & Hdirty).
  - by rewrite Hf.
  - eexists. rewrite Hwid, lookup_insert_eq. by split.
  - rewrite Hf. simpl. lia.
  - exact Hpos.
  - exists st'. simpl. unfold bind. rewrite Hrun. split; [exact Hrun'|].
    rewrite Hf in Hsaved, Hdirty. simpl in Hsaved, Hdirty.
    split; [exact Hsaved|]. rewrite Hdirty.
    destruct (last hs) as [h'|] eqn:Hlast.
    + apply last_Some in Hlast as [l ->].
      apply Forall_app in Hpos as [_ Hh']. apply (proj1 (Forall_singleton _ _)) in Hh'.
      simpl in Hh'. destruct (Z.eqb_spec (undo h') (-1)); [lia|done].
    + destruct (Z.eqb_spec (undo h) (-1)); [lia|done].
Qed.

(** C2, as the code has it.  A document constructed with an editor at
    undo depth 0 is clean with watermark 0.  Every run of change
    notifications then returns, leaves the watermark at 0, and leaves
    [isDirty] true exactly when the last undo depth is not 0: true at any
    depth [N > 0], false again at depth 0 whatever the redo depth, true
    after a new edit, and false once more when the depth comes back to
    0. *)
Theorem dirty_bit_follows_undo_depth st fileEntry w cm this st0 :
  widgets st !! w = Some cm →
  undo (history cm) = 0%Z →
  newDocument fileEntry (Some w) st = Returned this st0 →
  isDirty (fieldsOf st0 this) = false ∧
  _savedUndoPosition (fieldsOf st0 this) = 0%Z ∧
  ∀ hs,
    Forall (λ h, (0 ≤ undo h)%Z) hs →
    ∃ st',
      editorChanges w hs st0 = Returned tt st' ∧
      _savedUndoPosition (fieldsOf st' this) = 0%Z ∧
      isDirty (fieldsOf st' this) =
        match last hs with
        | Some h => negb (undo h =? 0)%Z
        | None => false
        end.
Proof.
  intros Hw Hu Hnew.
  destruct (newDocument_with_editor _ _ _ _ _ _ Hw Hnew)
    as (_ & Hf & Hw0 & _ & _ & _).
  rewrite Hu in Hf. rewrite Hf. simpl. split_and!; try done.
  intros hs Hpos.
  destruct (editorChanges_low_watermark this w hs st0) as (st' & Hrun & Hsaved & Hdirty).
  - by rewrite Hf.
  - eexists. by split.
  - by rewrite Hf.
  - exact Hpos.
  - exists st'. rewrite Hf in Hsaved, Hdirty. by split_and!.
Qed.

(** ** Construction and open documents *)

Lemma find_jsIndex st fileEntry :
  _findInWorkingSet st fileEntry ≠ (-1)%Z →
  ∃ e, jsIndex (_workingSet st) (_findInWorkingSet st fileEntry) = Some e ∧
       e ∈ _workingSet st ∧ pathOf e = fullPath fileEntry.
Proof.
  intros Hin.
  destruct (findFrom_inv _ _ _ _ eq_refl Hin ltac:(lia))
    as (i & e & Hi & Hl & He & _).
  exists e. unfold _findInWorkingSet. rewrite Hi, Z.add_0_l, jsIndex_of_nat.
  split_and!; [done|by eapply list_elem_of_lookup_2|done].
Qed.

Lemma getDocumentForFile_None st fileEntry :
  getDocumentForFile st fileEntry = None ↔
  (∀ c, _currentDocument st = Some c → pathOf c ≠ fullPath fileEntry) ∧
  (∀ e, e ∈ _workingSet st → pathOf e ≠ fullPath fileEntry).
Proof.
  unfold getDocumentForFile. split.
  - intros Hnone.
    assert (Hfind : _findInWorkingSet st fileEntry = (-1)%Z).
    { destruct (decide (_findInWorkingSet st fileEntry = (-1)%Z)) as [|Hin]; [done|].
      destruct (find_jsIndex st fileEntry Hin) as (e & He & _).
      destruct (_currentDocument st) as [c|]; repeat case_decide; congruence. }
    split; [|by apply find_absent].
    intros c Hc. rewrite Hc in Hnone. by case_decide.
  - intros [Hcur Hws]. apply find_absent in Hws.
    destruct (_currentDocument st) as [c|].
    + rewrite decide_False by (by apply Hcur). by rewrite decide_True.
    + by rewrite decide_True.
Qed.

Lemma getDocumentForFile_Some st fileEntry :
  is_Some (getDocumentForFile st fileEntry) ↔
  ∃ d, (_currentDocument st = Some d ∨ d ∈ _workingSet st) ∧
       pathOf d = fullPath fileEntry.
Proof.
  rewrite <- not_eq_None_Some, getDocumentForFile_None. split.
  - intros Hnot.
    destruct (_currentDocument st) as [c|] eqn:Hc.
    + destruct (decide (pathOf c = fullPath fileEntry)) as [Hp|Hp].
      { exists c. split; [by left|done]. }
      destruct (decide (_findInWorkingSet st fileEntry = (-1)%Z)) as [Habs|Hin].
      * exfalso. apply Hnot. split; [by intros ? [= <-]|by apply find_absent].
      * destruct (find_jsIndex st fileEntry Hin) as (e & _ & He & Hpe).
        exists e. split; [by right|done].
    + destruct (decide (_findInWorkingSet st fileEntry = (-1)%Z)) as [Habs|Hin].
      * exfalso. apply Hnot. split; [done|by apply find_absent].
      * destruct (find_jsIndex st fileEntry Hin) as (e & _ & He & Hpe).
        exists e. split; [by right|done].
  - intros (d & [Hd|Hd] & Hp) [Hcur Hws].
    + by apply (Hcur d).
    + by apply (Hws d).
Qed.

(** What the guard of the constructor enforces.  A file is open exactly
    when the current document or a working-set entry has its path;
    constructing a Document for an open file throws "already exists" and
    changes nothing, with or without an editor; constructing one for a file
    that is not open succeeds, without an editor or with an editor that
    exists, records the new object and leaves the working set and the
    current document alone, and never throws "already exists", whatever
    documents were constructed before; and in every reachable state the
    working set holds no path twice. *)
Theorem newDocument_only_open_files_clash isWithinProject getFile st fileEntry :
  (is_Some (getDocumentForFile st fileEntry) ↔
   ∃ d, (_currentDocument st = Some d ∨ d ∈ _workingSet st) ∧
        pathOf d = fullPath fileEntry) ∧
  (∀ editor,
     is_Some (getDocumentForFile st fileEntry) →
     newDocument fileEntry editor st = Threw DocumentAlreadyExists st) ∧
  (getDocumentForFile st fileEntry = None →
   ∀ editor,
     editor = None ∨ (∃ w, editor = Some w ∧ is_Some (widgets st !! w)) →
     ∃ st',
       newDocument fileEntry editor st
       = Returned {| docId := length (documents st); file := fileEntry |} st' ∧
       documents st' =
         documents st ++ [{| docId := length (documents st); file := fileEntry |}] ∧
       _workingSet st' = _workingSet st ∧
       _currentDocument st' = _currentDocument st) ∧
  (getDocumentForFile st fileEntry = None →
   ∀ editor st', newDocument fileEntry editor st ≠ Threw DocumentAlreadyExists st') ∧
  (reachable isWithinProject getFile st → NoDup (pathOf <$> _workingSet st)).
Proof.
  split_and!.
  - apply getDocumentForFile_Some.
  - intros editor [d Hd]. unfold newDocument. by rewrite Hd.
  - intros Hnone editor [->|(w & -> & [cm Hw])].
    + unfold newDocument. rewrite Hnone. simpl. by eexists.
    + unfold newDocument, _setEditor. rewrite Hnone. simpl. rewrite Hw. simpl.
      by eexists.
  - intros Hnone editor st'. unfold newDocument, _setEditor. rewrite Hnone.
    destruct editor as [w|]; simpl; [|done]. by destruct (widgets st !! w).
  - apply reachable_wsInv.
Qed.

(** ** Restoring the working set *)

Lemma jsSet_lookup_eq i v a : jsSet i v a !! i = Some v.
Proof.
  unfold jsSet. case_decide as Hlt.
  - by apply list_lookup_insert_eq.
  - rewrite lookup_app_r by lia. rewrite lookup_app_r by (rewrite length_replicate; lia).
    rewrite length_replicate. by replace (i - length a - (i - length a)) with 0 by lia.
Qed.

Lemma jsSet_lookup_ne i j v a x :
  j ≠ i → a !! j = Some x → jsSet i v a !! j = Some x.
Proof.
  intros Hne Hj. unfold jsSet. case_decide as Hlt.
  - by rewrite list_lookup_insert_ne.
  - by apply lookup_app_l_Some.
Qed.

Lemma jsSet_length i v a : length (jsSet i v a) = length a `max` S i.
Proof.
  unfold jsSet. case_decide as Hlt.
  - rewrite length_insert. lia.
  - rewrite !length_app, length_replicate. simpl. lia.
Qed.

Section Restore.

Variable isWithinProject : string -> bool.
Variable getFile : string -> option FileEntry.

Lemma respond_spec files index value r :
  files !! index = Some value →
  let r' := respond getFile files index r in
  filesToOpen r' = jsSet index (slotOf getFile value) (filesToOpen r) ∧
  responseCount r' = S (responseCount r) ∧
  resolved r' = resolved r || (S (responseCount r) =? length files).
Proof.
  intros Hv. unfold respond, slotOf. rewrite Hv.
  by destruct (getFile (storedPath value)).
Qed.

(** Whatever the order of the responses, once each record has answered
    the array [filesToOpen] lists the records' slots in stored order. *)
Lemma awaitAll_collects files :
  ∀ rest answered r,
    NoDup (answered ++ rest) →
    (∀ j, j ∈ answered ++ rest ↔ j < length files) →
    responseCount r = length answered →
    resolved r = false →
    length (filesToOpen r) ≤ length files →
    (∀ j value, j ∈ answered → files !! j = Some value →
                 filesToOpen r !! j = Some (slotOf getFile value)) →
    rest ≠ [] →
    ∃ r', awaitAll getFile files rest r = Some r' ∧
          filesToOpen r' = slotOf getFile <$> files.
Proof.
  induction rest as [|i rest IH];
    intros answered r Hnd Hall Hcount Hres Hlen Hslots Hne; [done|].
  assert (Hi : i < length files).
  { apply Hall, elem_of_app. right. apply list_elem_of_here. }
  destruct (lookup_lt_is_Some_2 files i Hi) as [value Hv].
  destruct (respond_spec files i value r Hv) as (Hf & Hc & Hr).
  cbn [awaitAll]. set (r' := respond getFile files i r) in *. clearbody r'.
  assert (Hlen' : length (filesToOpen r') ≤ length files).
  { rewrite Hf, jsSet_length. lia. }
  assert (Hslots' : ∀ j v, j ∈ answered ++ [i] → files !! j = Some v →
                           filesToOpen r' !! j = Some (slotOf getFile v)).
  { intros j v Hj Hjv. rewrite Hf.
    destruct (decide (j = i)) as [->|Hji].
    - rewrite jsSet_lookup_eq. congruence.
    - apply jsSet_lookup_ne; [done|]. apply Hslots; [|done].
      apply elem_of_app in Hj as [Hj|Hj]; [done|].
      by apply list_elem_of_singleton in Hj. }
  assert (Htotal : length answered + S (length rest) = length files).
  { pose proof (NoDup_seq 0 (length files)) as Hseq.
    assert (Hperm : answered ++ i :: rest ≡ₚ seq 0 (length files)).
    { apply NoDup_Permutation; [exact Hnd|exact Hseq|].
      intros j. rewrite Hall, elem_of_seq. lia. }
    apply Permutation_length in Hperm.
    rewrite length_app, length_seq in Hperm. simpl in Hperm. lia. }
  rewrite Hr, Hres, Hcount, orb_false_l.
  destruct (Nat.eqb_spec (S (length answered)) (length files)) as [Hlast|Hmore].
  - exists r'. split; [done|].
    assert (rest = []) as -> by (destruct rest; [done|simpl in Htotal; lia]).
    apply list_eq. intros j. rewrite list_lookup_fmap.
    destruct (files !! j) as [v|] eqn:Hjv; simpl.
    + apply Hslots'; [|done]. apply Hall. by eapply lookup_lt_Some.
    + apply lookup_ge_None. apply lookup_ge_None in Hjv. lia.
  - apply (IH (answered ++ [i])).
    + by rewrite <- app_assoc.
    + intros j. rewrite <- app_assoc. apply Hall.
    + rewrite Hc, Hcount, length_app. simpl. lia.
    + rewrite Hr, Hres, Hcount, orb_false_l. by apply Nat.eqb_neq.
    + exact Hlen'.
    + exact Hslots'.
    + destruct rest; [simpl in Htotal; lia|done].
Qed.

Lemma entriesOf_slotOf files :
  entriesOf (slotOf getFile <$> files) = survivors getFile files.
Proof.
  induction files as [|value files IH]; [done|].
  unfold entriesOf, survivors in *. simpl. unfold slotOf at 1.
  destruct (getFile (storedPath value)); simpl; [f_equal|]; exact IH.
Qed.

Lemma built_cons from fileEntry fs :
  built from (fileEntry :: fs)
  = {| docId := from; file := fileEntry |} :: built (S from) fs.
Proof.
  unfold built. simpl. rewrite Nat.add_0_r. f_equal.
  apply imap_ext. intros i x _. simpl. f_equal. lia.
Qed.

(** The loop of the [done] callback builds one document per entry, in
    index order, appends each to the working set and leaves the current
    document alone, provided the entries' paths differ from one another
    and from those of the open documents. *)
Lemma addExisting_appends slots :
  ∀ st af ad,
    NoDup (fullPath <$> entriesOf slots) →
    (∀ fileEntry, fileEntry ∈ entriesOf slots →
                  getDocumentForFile st fileEntry = None) →
    ∃ ad' st',
      addExisting slots af ad st = Returned ad' st' ∧
      _workingSet st' =
        _workingSet st ++ built (length (documents st)) (entriesOf slots) ∧
      documents st' =
        documents st ++ built (length (documents st)) (entriesOf slots) ∧
      _currentDocument st' = _currentDocument st ∧
      (∀ d, ad' = Obj d →
            ad = Obj d ∨ d ∈ built (length (documents st)) (entriesOf slots)) ∧
      (∀ fileEntry, af = Some fileEntry →
         (fileEntry ∈ entriesOf slots → ∃ d, ad' = Obj d ∧ file d = fileEntry) ∧
         (fileEntry ∉ entriesOf slots → ad' = ad)).
Proof.
  induction slots as [|s slots IH]; intros st af ad Hnd Hclosed.
  - exists ad, st. simpl. rewrite !app_nil_r. split_and!; auto.
    intros fe _. split; [|done]. intros Hin. by apply elem_of_nil in Hin.
  - destruct s as [| |value]; simpl; [by apply IH..|].
    change (entriesOf (Entry value :: slots)) with (value :: entriesOf slots) in *.
    rewrite fmap_cons in Hnd. apply NoDup_cons in Hnd as [Hfresh Hnd].
    pose proof (Hclosed value ltac:(apply list_elem_of_here)) as Hnone.
    unfold bind at 1. unfold newDocument. rewrite Hnone. simpl.
    unfold bind at 1, lift.
    set (doc := {| docId := length (documents st); file := value |}).
    set (st0 := setDocuments _ _).
    apply getDocumentForFile_None in Hnone as [Hcur Hws].
    assert (Habs : _findInWorkingSet st0 (file doc) = (-1)%Z)
      by (by apply find_absent).
    rewrite (addToWorkingSet_absent doc st0 Habs).
    set (st1 := trigger _ _).
    destruct (IH st1 af (if decide (Some value = af) then Obj doc else ad))
      as (ad' & st' & Hrun & Hws' & Hdocs' & Hcur' & Hobj & Hact); [done| |].
    + intros fe Hfe. apply getDocumentForFile_None.
      pose proof (Hclosed fe ltac:(by apply list_elem_of_further)) as Hfe'.
      apply getDocumentForFile_None in Hfe' as [Hc Hw].
      split; [exact Hc|].
      intros e He. subst st1 st0. simpl in He.
      apply elem_of_app in He as [He|He]; [by apply Hw|].
      apply list_elem_of_singleton in He as ->. simpl.
      intros Hp. apply Hfresh. unfold pathOf in Hp. simpl in Hp. rewrite Hp.
      apply list_elem_of_fmap. by exists fe.
    + exists ad', st'. split; [exact Hrun|].
      rewrite Hws', Hdocs', Hcur'. subst st1 st0. simpl.
      rewrite length_app, built_cons. simpl.
      replace (length (documents st) + 1) with (S (length (documents st))) by lia.
      rewrite <- !app_assoc. split_and!; try done.
      intros d Hd. destruct (Hobj d Hd) as [Hsame|Hin].
      * case_decide; [|by left]. injection Hsame as <-.
        right. apply list_elem_of_here.
      * right. revert Hin. simpl. rewrite length_app. simpl.
        replace (length (documents st) + 1) with (S (length (documents st))) by lia.
        apply list_elem_of_further.
      * intros fe Haf. destruct (Hact fe Haf) as [Hin Hout]. split.
        -- intros Hfe. destruct (decide (fe ∈ entriesOf slots)) as [Hrest|Hrest];
             [by apply Hin|].
           apply elem_of_cons in Hfe as [->|Hfe]; [|done].
           exists doc. split; [|done].
           rewrite (Hout Hrest), Haf. by rewrite decide_True.
        -- intros Hfe. apply not_elem_of_cons in Hfe as [Hne Hrest].
           rewrite (Hout Hrest), Haf. rewrite decide_False; [done|congruence].
Qed.

(** C4. Restore from a state in which none of the stored files that
    resolve is open, their paths differing from one another: whatever
    the order [order] in which the responses arrive (each record answers
    once), [_init] returns, and the working set gains the documents
    built for the records that resolve, in stored order; the records
    that fail to resolve leave no trace.  For the stored list
    [(a.js, false); (b.js, true); (c.js, false)] with [a.js] failing,
    every arrival order restores the working set [docB; docC] with
    [docB] current. *)
Theorem restore_keeps_stored_order files order st :
  order ≡ₚ seq 0 (length files) →
  NoDup (fullPath <$> survivors getFile files) →
  (∀ fileEntry, fileEntry ∈ survivors getFile files →
                getDocumentForFile st fileEntry = None) →
  (∃ st',
     _init isWithinProject getFile (Some files) order st = Returned tt st' ∧
     _workingSet st' =
       _workingSet st ++ built (length (documents st)) (survivors getFile files)) ∧
  (∀ arrival,
     arrival ≡ₚ [0; 1; 2] →
     ∃ st',
       _init isWithinProject sampleGetFile (Some storedABC) arrival initial
       = Returned tt st' ∧
       _workingSet st' = [restoredB; restoredC] ∧
       _currentDocument st' = Some restoredB).
Proof.
  intros Hperm Hnd Hclosed. split.
  - unfold _init. destruct order as [|i order].
    { apply Permutation_nil_l in Hperm.
      assert (files = []) as -> by (by destruct files).
      exists st. simpl. by rewrite app_nil_r. }
    destruct (awaitAll_collects files (i :: order) [] noResponse)
      as (r & Hr & Hslots); simpl; try done.
    + rewrite Hperm. apply NoDup_seq.
    + intros j. rewrite Hperm, elem_of_seq. lia.
    + lia.
    + intros j value Hj. by apply elem_of_nil in Hj.
    + simpl in Hr. rewrite Hr. unfold restoreDone, bind. rewrite Hslots.
      destruct (addExisting_appends (slotOf getFile <$> files) st (activeFile r) Undefined)
        as (ad & st1 & Hrun & Hws & _ & _ & Hobj & _).
      * by rewrite entriesOf_slotOf.
      * intros fe. rewrite entriesOf_slotOf. apply Hclosed.
      * rewrite Hrun. rewrite entriesOf_slotOf in Hws, Hobj.
        assert (Hshow : ∀ d, d ∈ _workingSet st1 →
                  _workingSet (showInEditor isWithinProject d st1) = _workingSet st1).
        { intros d Hd. apply showInEditor_member_ws.
          by apply (find_present _ _ d). }
        destruct ad as [| |d].
        -- by exists st1.
        -- destruct (_workingSet st1 !! 0) as [d|] eqn:Hd; [|by exists st1].
           eexists. split; [done|]. rewrite Hshow; [done|].
           by eapply list_elem_of_lookup_2.
        -- eexists. split; [done|]. rewrite Hshow; [done|].
           destruct (Hobj d eq_refl) as [|Hin]; [done|].
           rewrite Hws. apply elem_of_app. by right.
  - intros arrival Harr. symmetry in Harr.
    apply permutations_Permutation in Harr. vm_compute in Harr.
    repeat (apply elem_of_cons in Harr as [->|Harr]);
      try (by apply elem_of_nil in Harr);
      vm_compute; destruct (isWithinProject _);
      eexists; split_and!; reflexivity.
Qed.

(** When each record answers once, the deferred is resolved by the last
    response, after all callbacks have run. *)
Lemma awaitAll_fold files :
  ∀ rest r,
    Forall (λ i, i < length files) rest →
    responseCount r + length rest = length files →
    resolved r = false →
    rest ≠ [] →
    awaitAll getFile files rest r
    = Some (foldl (λ r i, respond getFile files i r) r rest).
Proof.
  induction rest as [|i rest IH]; intros r Hvalid Hcount Hres Hne; [done|].
  apply Forall_cons in Hvalid as [Hi Hvalid].
  destruct (lookup_lt_is_Some_2 files i Hi) as [value Hv].
  destruct (respond_spec files i value r Hv) as (_ & Hc & Hr).
  cbn [awaitAll foldl]. set (r' := respond getFile files i r) in *. clearbody r'.
  rewrite Hr, Hres, orb_false_l. simpl in Hcount.
  destruct (Nat.eqb_spec (S (responseCount r)) (length files)) as [Hlast|Hmore].
  - by assert (rest = []) as -> by (destruct rest; [done|simpl in Hcount; lia]).
  - apply IH; [done|lia| |].
    + by rewrite Hr, Hres.
    + destruct rest; [simpl in Hcount; lia|done].
Qed.

(** When one record only is both flagged active and resolved, its entry
    is what [activeFile] holds once that record has answered. *)
Lemma foldl_respond_activeFile files k vk fileEntry :
  files !! k = Some vk → active vk = true →
  getFile (storedPath vk) = Some fileEntry →
  (∀ j v, files !! j = Some v → active v = true →
          is_Some (getFile (storedPath v)) → j = k) →
  ∀ rest r,
    k ∈ rest ∨ activeFile r = Some fileEntry →
    activeFile (foldl (λ r i, respond getFile files i r) r rest) = Some fileEntry.
Proof.
  intros Hk Hactive Hresolves Honly.
  induction rest as [|i rest IH]; intros r Hcase.
  - destruct Hcase as [Hin|Hr]; [by apply elem_of_nil in Hin|done].
  - cbn [foldl]. apply IH.
    destruct (decide (k ∈ rest)) as [Hin|Hout]; [by left|]. right.
    destruct (decide (i = k)) as [->|Hik].
    + unfold respond. by rewrite Hk, Hresolves, Hactive.
    + assert (Hr : activeFile r = Some fileEntry).
      { destruct Hcase as [Hin|Hr]; [|done].
        apply elem_of_cons in Hin as [->|Hin]; done. }
      unfold respond. destruct (files !! i) as [v|] eqn:Hv; [|done].
      destruct (getFile (storedPath v)) as [fe|] eqn:Hfe; [|done]. simpl.
      destruct (active v) eqn:Hav; [|done].
      exfalso. apply Hik. by apply (Honly i v).
Qed.

(** X15.  When one record only is both flagged active and resolved, the
    document built for it is the current document after the restore. *)
Lemma restore_active_entry_current files order st k vk fileEntry :
  order ≡ₚ seq 0 (length files) →
  NoDup (fullPath <$> survivors getFile files) →
  (∀ fe, fe ∈ survivors getFile files → getDocumentForFile st fe = None) →
  files !! k = Some vk → active vk = true →
  getFile (storedPath vk) = Some fileEntry →
  (∀ j v, files !! j = Some v → active v = true →
          is_Some (getFile (storedPath v)) → j = k) →
  ∃ st' d,
    _init isWithinProject getFile (Some files) order st = Returned tt st' ∧
    _currentDocument st' = Some d ∧ file d = fileEntry ∧
    d ∈ built (length (documents st)) (survivors getFile files).
Proof.
  intros Hperm Hnd Hclosed Hk Hactive Hresolves Honly. unfold _init.
  assert (Hkorder : k ∈ order).
  { rewrite Hperm, elem_of_seq. apply lookup_lt_Some in Hk. lia. }
  assert (Hvalid : Forall (λ i, i < length files) order).
  { apply Forall_forall. intros i Hi. rewrite Hperm, elem_of_seq in Hi. lia. }
  assert (Hlen : length order = length files).
  { by rewrite Hperm, length_seq. }
  rewrite (awaitAll_fold files order noResponse Hvalid); [|simpl; lia|done|].
  2:{ intros ->. by apply elem_of_nil in Hkorder. }
  set (r := foldl _ noResponse order).
  assert (Haf : activeFile r = Some fileEntry).
  { apply (foldl_respond_activeFile files k vk); try done. by left. }
  assert (Hslots : filesToOpen r = slotOf getFile <$> files).
  { destruct order as [|i order']; [by apply elem_of_nil in Hkorder|].
    destruct (awaitAll_collects files (i :: order') [] noResponse)
      as (r' & Hr' & Hs); simpl; try done.
    - rewrite Hperm. apply NoDup_seq.
    - intros j. rewrite Hperm, elem_of_seq. lia.
    - lia.
    - intros j value Hj. by apply elem_of_nil in Hj.
    - rewrite (awaitAll_fold files (i :: order') noResponse Hvalid) in Hr';
        [|simpl in *; lia|done|done].
      injection Hr' as <-. exact Hs. }
  unfold restoreDone, bind. rewrite Hslots, Haf.
  destruct (addExisting_appends (slotOf getFile <$> files) st (Some fileEntry) Undefined)
    as (ad & st1 & Hrun & Hws & _ & _ & Hobj & Hact).
  - by rewrite entriesOf_slotOf.
  - intros fe. rewrite entriesOf_slotOf. apply Hclosed.
  - rewrite Hrun. rewrite entriesOf_slotOf in Hobj, Hact.
    destruct (Hact fileEntry eq_refl) as [Hin _].
    destruct Hin as (d & -> & Hfile).
    { unfold survivors. apply list_elem_of_omap. exists vk.
      split; [by eapply list_elem_of_lookup_2|done]. }
    exists (showInEditor isWithinProject d st1), d.
    split_and!; [done|apply showInEditor_current|done|].
    by destruct (Hobj d eq_refl).
Qed.

(** When no stored record that resolves is flagged active, [activeFile]
    is never assigned. *)
Lemma awaitAll_no_active files :
  Forall (λ value, active value = true → getFile (storedPath value) = None) files →
  ∀ order r r',
    activeFile r = None →
    awaitAll getFile files order r = Some r' → activeFile r' = None.
Proof.
  intros Hnone. induction order as [|i order IH]; intros r r' Hr; [done|].
  cbn [awaitAll].
  assert (Hstep : activeFile (respond getFile files i r) = None).
  { unfold respond. destruct (files !! i) as [value|] eqn:Hv; [|done].
    rewrite Forall_lookup in Hnone. specialize (Hnone i value Hv).
    destruct (getFile (storedPath value)); [|done]. simpl.
    destruct (active value); [by discriminate Hnone|done]. }
  destruct (resolved (respond getFile files i r)).
  - by intros [= <-].
  - by apply IH.
Qed.

Lemma addExisting_no_active slots :
  ∀ st ad,
    _currentDocument (stateOf (addExisting slots None ad st)) = _currentDocument st ∧
    ∀ ad' st', addExisting slots None ad st = Returned ad' st' → ad' = ad.
Proof.
  induction slots as [|s slots IH]; intros st ad.
  - split; [done|]. by intros ad' st' [= <- <-].
  - destruct s as [| |value]; cbn [addExisting]; [apply IH..|].
    unfold bind at 1 3.
    pose proof (newDocument_current value None st) as Hcur.
    destruct (newDocument value None st) as [doc st0|e st0]; simpl in Hcur.
    + unfold bind, lift. rewrite decide_False by done.
      destruct (IH (addToWorkingSet doc st0) ad) as [Hc Hr].
      split; [|exact Hr]. by rewrite Hc, addToWorkingSet_current.
    + split; [done|]. intros ? ? [=].
Qed.

(** The fallback of the [done] callback never runs: a restore in which
    no record is both flagged active and resolved leaves the current
    document as it was. *)
Lemma restore_without_active_flag files order st :
  Forall (λ value, active value = true → getFile (storedPath value) = None) files →
  _currentDocument (stateOf (_init isWithinProject getFile (Some files) order st))
  = _currentDocument st.
Proof.
  intros Hnone. unfold _init.
  destruct (awaitAll getFile files order noResponse) as [r|] eqn:Hr; [|done].
  pose proof (awaitAll_no_active files Hnone order noResponse r eq_refl Hr) as Haf.
  unfold restoreDone, bind. rewrite Haf.
  destruct (addExisting_no_active (filesToOpen r) st Undefined) as [Hc Hret].
  destruct (addExisting (filesToOpen r) None Undefined st) as [ad st1|e st1] eqn:Hrun;
    [|exact Hc].
  by rewrite (Hret ad st1 eq_refl).
Qed.

End Restore.

(** ** The statements on sample runs *)

(** Peels the last operation off a sample run. *)
Ltac last_step :=
  eapply reach_step; cycle 1;
  [constructor; try (vm_compute; repeat constructor)|].

(** C3. The stored list holds one record, not flagged active, whose path
    resolves.  After the restore the working set holds the document built
    for it and no document is current: the fallback to the first
    working-set entry does not run. *)
Theorem restore_no_active_entry_no_current :
  _init insideProject sampleGetFile (Some storedB) [0] initial
  = Returned tt
      {| _currentDocument := None;
         _workingSet := [{| docId := 0; file := fileB |}];
         documents := [{| docId := 0; file := fileB |}];
         docFields := ∅; widgets := ∅;
         events := [workingSetAdd {| docId := 0; file := fileB |}] |}.
Proof. vm_compute. reflexivity. Qed.

(** The claim C2 fails here: after edit, undo, a different edit and undo
    again the undo depth is back at 0 and [isDirty] is false. *)
Lemma dirty_again_clean_at_depth_zero :
  fieldsOf fresh docA
  = {| isDirty := false; _editor := Some 0; _savedUndoPosition := 0 |} ∧
  (isDirty ∘ (λ st, fieldsOf st docA) ∘ stateOf)
    <$> [ editorChanges 0 (take 1 editUndoEditUndo) fresh;
          editorChanges 0 (take 2 editUndoEditUndo) fresh;
          editorChanges 0 (take 3 editUndoEditUndo) fresh;
          editorChanges 0 editUndoEditUndo fresh ]
  = [true; false; true; false].
Proof. split; vm_compute; reflexivity. Qed.

(** C6.  The uniqueness half of the claim fails on the code.  From the
    initial state the constructor is called twice for [fileA]: the first
    call returns [docA]; [getDocumentForFile] then still answers nothing for
    [fileA], since [docA] is neither current nor in the working set, so the
    second call passes the guard and returns a second object [docA'] of the
    same path.  After [addToWorkingSet docA] and [showInEditor docA'], a
    reachable state, [docA] is in the working set and [docA'] is current:
    two distinct Document instances of one path, both open, so documents
    are not unique per path.  Comparing by identity is then unsafe: closing
    [docA'] takes [docA] out of the working set and announces the removal
    of [docA'], which was never in it. *)
Theorem two_open_documents_one_path :
  newDocument fileA None initial
  = Returned docA (constructed fileA None initial) ∧
  getDocumentForFile (constructed fileA None initial) fileA = None ∧
  newDocument fileA None (constructed fileA None initial)
  = Returned docA' (constructed fileA None (constructed fileA None initial)) ∧
  reachable insideProject sampleGetFile twoOpen ∧
  documents twoOpen = [docA; docA'] ∧
  _workingSet twoOpen = [docA] ∧
  _currentDocument twoOpen = Some docA' ∧
  docA ≠ docA' ∧ pathOf docA = pathOf docA' ∧
  ¬ (∀ d1 d2, d1 ∈ documents twoOpen → d2 ∈ documents twoOpen →
              pathOf d1 = pathOf d2 → d1 = d2) ∧
  _workingSet (closeDocument insideProject docA' twoOpen) = [] ∧
  last (events (closeDocument insideProject docA' twoOpen))
  = Some (workingSetRemove docA').
Proof.
  assert (Hdocs : documents twoOpen = [docA; docA']) by (vm_compute; reflexivity).
  split_and!; try (vm_compute; reflexivity); try done.
  - unfold twoOpen, constructed. do 4 last_step. apply reach_initial.
  - intros Huniq. assert (docA = docA') as [=]. apply Huniq; [..|done].
    + rewrite Hdocs. repeat constructor.
    + rewrite Hdocs. repeat constructor.
Qed.

Lemma threeOpen_reachable : reachable insideProject sampleGetFile threeOpen.
Proof.
  unfold threeOpen, constructed. do 7 last_step. apply reach_initial.
Qed.

(** [closeDocument(docB)] in the working set [docA; docB; docC] with
    [docB] current: [docC] becomes current, [docA; docC] remains. *)
Lemma closeDocument_current_document_witness :
  _currentDocument threeOpen = Some docB ∧
  _currentDocument (closeDocument insideProject docB threeOpen) = Some docC ∧
  _workingSet (closeDocument insideProject docB threeOpen) = [docA; docC].
Proof.
  split; [reflexivity|].
  destruct (closeDocument_current_document insideProject threeOpen docB eq_refl)
    as [_ Hin].
  apply (Hin 1 docB); [reflexivity|reflexivity|].
  intros [|j] e' Hj Hl; [|lia].
  vm_compute in Hl. injection Hl as <-. discriminate.
Defined.

(** Two edits in a fresh document, none of them saved. *)
Lemma dirty_bit_follows_undo_depth_witness :
  widgets withWidget !! 0 = Some blankWidget ∧
  undo (history blankWidget) = 0%Z ∧
  newDocument fileA (Some 0) withWidget = Returned docA fresh ∧
  isDirty (fieldsOf fresh docA) = false ∧
  ∃ st',
    editorChanges 0 editUndoEditUndo fresh = Returned tt st' ∧
    _savedUndoPosition (fieldsOf st' docA) = 0%Z ∧
    isDirty (fieldsOf st' docA) = false.
Proof.
  assert (Hw : widgets withWidget !! 0 = Some blankWidget) by reflexivity.
  assert (Hnew : newDocument fileA (Some 0) withWidget = Returned docA fresh)
    by (vm_compute; reflexivity).
  destruct (dirty_bit_follows_undo_depth withWidget fileA 0 blankWidget docA fresh
              Hw eq_refl Hnew) as (Hclean & _ & Hruns).
  split_and!; [exact Hw|reflexivity|exact Hnew|exact Hclean|].
  apply (Hruns editUndoEditUndo). repeat constructor; simpl; lia.
Defined.

(** The restore of [storedABC] when the answers arrive as [2; 0; 1]. *)
Lemma restore_keeps_stored_order_witness :
  [2; 0; 1] ≡ₚ seq 0 (length storedABC) ∧
  NoDup (fullPath <$> survivors sampleGetFile storedABC) ∧
  (∀ fileEntry, fileEntry ∈ survivors sampleGetFile storedABC →
                getDocumentForFile initial fileEntry = None) ∧
  ∃ st',
    _init insideProject sampleGetFile (Some storedABC) [2; 0; 1] initial
    = Returned tt st' ∧
    _workingSet st' = [restoredB; restoredC].
Proof.
  assert (Hperm : [2; 0; 1] ≡ₚ seq 0 (length storedABC)).
  { simpl. etrans; [apply perm_swap|]. apply perm_skip, perm_swap. }
  assert (Hnd : NoDup (fullPath <$> survivors sampleGetFile storedABC)).
  { vm_compute. repeat constructor; intros Hin;
      repeat (apply elem_of_cons in Hin as [[=]|Hin]); by apply elem_of_nil in Hin. }
  assert (Hclosed : ∀ fileEntry, fileEntry ∈ survivors sampleGetFile storedABC →
                                 getDocumentForFile initial fileEntry = None)
    by reflexivity.
  split_and!; [exact Hperm|exact Hnd|exact Hclosed|].
  apply (restore_keeps_stored_order insideProject sampleGetFile storedABC [2; 0; 1]
           initial Hperm Hnd Hclosed).
Defined.

(** The first edit in a fresh document: the flag goes up and the
    document enters the working set. *)
Lemma dirty_flag_change_is_notified_witness :
  widgets fresh !! 0
  = Some {| history := {| undo := 0; redo := 0 |}; onChange := Some docA |} ∧
  _editor (fieldsOf fresh docA) = Some 0 ∧
  ∃ st',
    editorChanged 0 {| undo := 1; redo := 0 |} fresh = Returned tt st' ∧
    (isDirty (fieldsOf fresh docA) = false → isDirty (fieldsOf st' docA) = true →
       _findInWorkingSet st' (file docA) ≠ (-1)%Z ∧
       (∃ e, e ∈ _workingSet st' ∧ pathOf e = pathOf docA) ∧
       (_findInWorkingSet fresh (file docA) = (-1)%Z →
        _workingSet st' = _workingSet fresh ++ [docA])).
Proof.
  assert (Hw : widgets fresh !! 0
               = Some {| history := {| undo := 0; redo := 0 |};
                         onChange := Some docA |}) by reflexivity.
  assert (He : _editor (fieldsOf fresh docA) = Some 0) by reflexivity.
  split_and!; [exact Hw|exact He|].
  destruct (proj1 (dirty_flag_change_is_notified insideProject sampleGetFile)
              fresh 0 _ docA {| undo := 1; redo := 0 |} Hw eq_refl He)
    as (st' & Hrun & Hmember & _).
  exists st'. split; [exact Hrun|exact Hmember].
Defined.

(** Closing the current document of [threeOpen]. *)
Lemma closeDocument_assertion_holds_witness :
  reachable insideProject sampleGetFile threeOpen ∧
  _currentDocument (switchAway insideProject docB threeOpen) ≠ Some docB ∧
  closeDocument insideProject docB threeOpen
  = _removeFromWorkingSet docB (switchAway insideProject docB threeOpen).
Proof.
  split; [exact threeOpen_reachable|].
  destruct (closeDocument_assertion_holds insideProject sampleGetFile threeOpen docB
              threeOpen_reachable) as (Hne & _ & Hclose).
  split; [exact Hne|exact Hclose].
Defined.

(** Adding [docA] and then a second object of its file to the empty
    working set. *)
Lemma addToWorkingSet_idempotent_witness :
  pathOf docA = pathOf docA' ∧
  NoDup (pathOf <$> _workingSet initial) ∧
  _workingSet (addToWorkingSet docA' (addToWorkingSet docA initial)) = [docA] ∧
  events (addToWorkingSet docA' (addToWorkingSet docA initial))
  = [workingSetAdd docA].
Proof.
  assert (Hnd : NoDup (pathOf <$> _workingSet initial)) by apply NoDup_nil_2.
  split_and!; [reflexivity|exact Hnd|..];
    destruct (addToWorkingSet_idempotent initial docA docA' eq_refl Hnd)
      as (_ & _ & _ & _ & Habs & _);
    destruct (Habs eq_refl) as [Hws Hev]; [exact Hws|exact Hev].
Defined.

(** Saving the document of [edited], twice. *)
Lemma markClean_idempotent_witness :
  _editor (fieldsOf edited docA) = Some 0 ∧
  widgets edited !! 0
  = Some {| history := {| undo := 2; redo := 0 |}; onChange := Some docA |} ∧
  ∃ st1,
    markClean docA edited = Returned tt st1 ∧
    isDirty (fieldsOf st1 docA) = false ∧
    _savedUndoPosition (fieldsOf st1 docA) = 2%Z ∧
    markClean docA st1 = Returned tt st1.
Proof.
  assert (He : _editor (fieldsOf edited docA) = Some 0) by reflexivity.
  assert (Hw : widgets edited !! 0
               = Some {| history := {| undo := 2; redo := 0 |};
                         onChange := Some docA |}) by reflexivity.
  split_and!; [exact He|exact Hw|].
  apply (markClean_idempotent edited docA 0 _ He Hw).
Defined.

(** Closing a document that was never opened. *)
Lemma closeDocument_untracked_witness :
  _currentDocument threeOpen ≠ Some docX ∧
  _findInWorkingSet threeOpen (file docX) = (-1)%Z ∧
  closeDocument insideProject docX threeOpen = threeOpen.
Proof.
  assert (Hcur : _currentDocument threeOpen ≠ Some docX) by discriminate.
  assert (Habs : _findInWorkingSet threeOpen (file docX) = (-1)%Z) by reflexivity.
  split_and!; [exact Hcur|exact Habs|].
  apply (closeDocument_untracked insideProject threeOpen docX Hcur Habs).
Defined.

(** ** More on the working set *)

(** X1.  [_findInWorkingSet] answers [-1] exactly when no entry has the path;
    any other answer is the index of the first entry that has it, within
    the bounds of the working set. *)
Theorem _findInWorkingSet_first_match st fileEntry :
  (_findInWorkingSet st fileEntry = (-1)%Z ↔
   ∀ e, e ∈ _workingSet st → pathOf e ≠ fullPath fileEntry) ∧
  (_findInWorkingSet st fileEntry ≠ (-1)%Z →
   ∃ i e,
     _findInWorkingSet st fileEntry = Z.of_nat i ∧
     i < length (_workingSet st) ∧
     _workingSet st !! i = Some e ∧ pathOf e = fullPath fileEntry ∧
     ∀ j e', j < i → _workingSet st !! j = Some e' →
             pathOf e' ≠ fullPath fileEntry).
Proof.
  split; [apply find_absent|].
  intros Hin.
  destruct (findFrom_inv _ _ _ _ eq_refl Hin ltac:(lia))
    as (i & e & Hi & Hl & He & Hfirst).
  exists i, e. split_and!; try done. by eapply lookup_lt_Some.
Qed.

Lemma _removeFromWorkingSet_absent d st :
  wsInv st → _findInWorkingSet (_removeFromWorkingSet d st) (file d) = (-1)%Z.
Proof.
  intros Hinv. unfold _removeFromWorkingSet.
  case_decide as Hfind; [done|].
  destruct (findFrom_inv _ _ _ _ eq_refl Hfind ltac:(lia))
    as (i & e & Hi & Hl & He & _).
  change (findFrom 0 (_workingSet st) (file d))
    with (_findInWorkingSet st (file d)) in Hi.
  rewrite Hi, Z.add_0_l, Nat2Z.id.
  apply find_absent. simpl. intros x Hx Hp.
  apply list_elem_of_lookup in Hx as [j Hj].
  assert (Hpi : (pathOf <$> _workingSet st) !! i = Some (pathOf d)).
  { rewrite list_lookup_fmap, Hl. simpl. by rewrite He. }
  destruct (decide (j < i)) as [Hlt|Hge].
  - rewrite list_lookup_delete_lt in Hj by done.
    assert (Hpj : (pathOf <$> _workingSet st) !! j = Some (pathOf d)).
    { rewrite list_lookup_fmap, Hj. simpl. by rewrite Hp. }
    pose proof (NoDup_lookup _ _ _ _ Hinv Hpi Hpj). lia.
  - rewrite list_lookup_delete_ge in Hj by lia.
    assert (Hpj : (pathOf <$> _workingSet st) !! S j = Some (pathOf d)).
    { rewrite list_lookup_fmap, Hj. simpl. by rewrite Hp. }
    pose proof (NoDup_lookup _ _ _ _ Hinv Hpi Hpj). lia.
Qed.

(** X2.  Removing a document right after it was added gives the working set
    back: when no entry had its path, the set and the current document are
    as before, and the two notifications are [workingSetAdd] then
    [workingSetRemove]. *)
Theorem remove_after_add d st :
  _findInWorkingSet st (file d) = (-1)%Z →
  let st' := _removeFromWorkingSet d (addToWorkingSet d st) in
  _workingSet st' = _workingSet st ∧
  _currentDocument st' = _currentDocument st ∧
  events st' = events st ++ [workingSetAdd d; workingSetRemove d].
Proof.
  intros Habs. simpl. rewrite (addToWorkingSet_absent d st Habs).
  unfold _removeFromWorkingSet.
  set (st1 := trigger _ _).
  assert (Hfind : _findInWorkingSet st1 (file d)
                  = Z.of_nat (length (_workingSet st))).
  { apply (find_first st1 (file d) _ d); [|done|].
    - subst st1. simpl. by rewrite lookup_app_r, Nat.sub_diag.
    - intros j e' Hj Hl. subst st1. simpl in Hl.
      rewrite lookup_app_l in Hl by done.
      rewrite find_absent in Habs. apply Habs. by eapply list_elem_of_lookup_2. }
  rewrite Hfind. rewrite decide_False by lia. subst st1. simpl.
  rewrite Nat2Z.id. split_and!; [|done|by rewrite <- app_assoc].
  by rewrite (delete_middle (_workingSet st) [] d), app_nil_r.
Qed.

Lemma _removeFromWorkingSet_events d st :
  events (_removeFromWorkingSet d st)
  = events st ++ (if decide (_findInWorkingSet st (file d) = (-1)%Z)
                  then [] else [workingSetRemove d]).
Proof.
  unfold _removeFromWorkingSet. case_decide; [by rewrite app_nil_r|done].
Qed.

Section CloseMore.

Variable isWithinProject : string -> bool.

Lemma switchAway_ws d st :
  _workingSet (switchAway isWithinProject d st) = _workingSet st.
Proof.
  unfold switchAway. case_decide; [|done].
  destruct (nextDocument d st) as [n|] eqn:Hnext.
  - apply showInEditor_member_ws. apply (find_present _ _ n); [|done].
    by eapply nextDocument_member.
  - apply _clearEditor_ws.
Qed.

Lemma switchAway_not_current d st :
  wsInv st → _currentDocument (switchAway isWithinProject d st) ≠ Some d.
Proof.
  intros Hinv. destruct (decide (_currentDocument st = Some d)) as [Hcur|Hcur].
  - rewrite switchAway_current by exact Hcur.
    destruct (nextDocument d st) as [n|] eqn:Hnext; [|done].
    intros [= ->]. by eapply nextDocument_other_path.
  - unfold switchAway. by rewrite decide_False.
Qed.

Lemma closeDocument_unfold d st :
  wsInv st →
  closeDocument isWithinProject d st
  = _removeFromWorkingSet d (switchAway isWithinProject d st).
Proof.
  intros Hinv. unfold closeDocument.
  by rewrite bool_decide_eq_true_2 by (by apply switchAway_not_current).
Qed.

(** X3.  [closeDocument(doc)] for a document of the working set that is not
    the current one: the entry of its path goes, the others keep their
    order, the current document stays, and the only notification is
    [workingSetRemove]. *)
Theorem closeDocument_not_current st doc i e :
  _currentDocument st ≠ Some doc →
  _workingSet st !! i = Some e → pathOf e = pathOf doc →
  (∀ j e', j < i → _workingSet st !! j = Some e' → pathOf e' ≠ pathOf doc) →
  closeDocument isWithinProject doc st
  = trigger (workingSetRemove doc)
      (setWorkingSet (take i (_workingSet st) ++ drop (S i) (_workingSet st)) st).
Proof.
  intros Hcur Hl He Hfirst. unfold closeDocument, switchAway.
  rewrite decide_False by exact Hcur.
  rewrite bool_decide_eq_true_2 by exact Hcur. simpl.
  unfold _removeFromWorkingSet.
  rewrite (find_first st (file doc) i e Hl He Hfirst).
  rewrite decide_False by lia. by rewrite Nat2Z.id, delete_take_drop.
Qed.

(** X4.  Closing twice is closing once: in a state whose working set holds no
    path twice, a second [closeDocument(doc)] changes nothing. *)
Theorem closeDocument_twice st doc :
  wsInv st →
  closeDocument isWithinProject doc (closeDocument isWithinProject doc st)
  = closeDocument isWithinProject doc st.
Proof.
  intros Hinv. rewrite (closeDocument_unfold doc st Hinv).
  set (st1 := _removeFromWorkingSet doc (switchAway isWithinProject doc st)).
  assert (Hinv1 : wsInv (switchAway isWithinProject doc st)).
  { eapply wsInv_same_ws; [apply switchAway_ws|done]. }
  assert (Hcur : _currentDocument st1 ≠ Some doc).
  { subst st1. rewrite _removeFromWorkingSet_current.
    by apply switchAway_not_current. }
  assert (Habs : _findInWorkingSet st1 (file doc) = (-1)%Z).
  { subst st1. by apply _removeFromWorkingSet_absent. }
  unfold closeDocument, switchAway.
  rewrite decide_False by exact Hcur.
  rewrite bool_decide_eq_true_2 by exact Hcur. simpl.
  unfold _removeFromWorkingSet. by rewrite decide_True.
Qed.

(** X5.  After [closeDocument(doc)] the file of [doc] is not open any more,
    provided the working set holds no path twice and the current
    document, when it is another object than [doc], has another path. *)
Theorem closeDocument_closes st doc :
  wsInv st →
  (∀ c, _currentDocument st = Some c → c = doc ∨ pathOf c ≠ pathOf doc) →
  getDocumentForFile (closeDocument isWithinProject doc st) (file doc) = None.
Proof.
  intros Hinv Hother. rewrite (closeDocument_unfold doc st Hinv).
  assert (Hinv1 : wsInv (switchAway isWithinProject doc st)).
  { eapply wsInv_same_ws; [apply switchAway_ws|done]. }
  apply getDocumentForFile_None. split.
  - intros c. rewrite _removeFromWorkingSet_current.
    destruct (decide (_currentDocument st = Some doc)) as [Hcur|Hcur].
    + rewrite switchAway_current by exact Hcur. intros Hnext.
      exact (nextDocument_other_path doc st c Hinv Hnext).
    + unfold switchAway. rewrite decide_False by exact Hcur. intros Hc.
      destruct (Hother c Hc) as [->|Hp]; [done|exact Hp].
  - apply find_absent. by apply _removeFromWorkingSet_absent.
Qed.

(** X6.  The notifications of [closeDocument(doc)], in a state whose working
    set holds no path twice: one [currentDocumentChange] when [doc] was
    current, then one [workingSetRemove] when its path was in the working
    set, and nothing else. *)
Theorem closeDocument_notifications st doc :
  wsInv st →
  events (closeDocument isWithinProject doc st)
  = events st
    ++ (if decide (_currentDocument st = Some doc)
        then [currentDocumentChange] else [])
    ++ (if decide (_findInWorkingSet st (file doc) = (-1)%Z)
        then [] else [workingSetRemove doc]).
Proof.
  intros Hinv. rewrite (closeDocument_unfold doc st Hinv).
  assert (Hsw : events (switchAway isWithinProject doc st)
                = events st ++ (if decide (_currentDocument st = Some doc)
                                then [currentDocumentChange] else [])).
  { unfold switchAway. case_decide as Hcur; [|by rewrite app_nil_r].
    destruct (nextDocument doc st) as [n|] eqn:Hnext.
    - unfold showInEditor. rewrite decide_False.
      + rewrite addToWorkingSet_present; [by destruct isWithinProject|].
        apply (find_present _ _ n); [|done]. by eapply nextDocument_member.
      + rewrite Hcur. intros [= ->].
        by apply (nextDocument_other_path n st n Hinv Hnext).
    - unfold _clearEditor. by rewrite Hcur. }
  rewrite _removeFromWorkingSet_events.
  rewrite (find_same_ws _ st (file doc) (switchAway_ws doc st)).
  by rewrite Hsw, <- app_assoc.
Qed.

End CloseMore.

(** ** Showing a document and looking a file up *)

Section ShowMore.

Variable isWithinProject : string -> bool.

(** X7.  [showInEditor(doc)] makes [doc] the current document, and the one
    [getDocumentForFile] answers for its file; a second call changes
    nothing, nor does a first call when [doc] is current already.  A
    document outside the project that was not current is in the working
    set afterwards; for a document inside the project the working set
    stays as it is. *)
Theorem showInEditor_shows st doc :
  let st' := showInEditor isWithinProject doc st in
  _currentDocument st' = Some doc ∧
  getDocumentForFile st' (file doc) = Some doc ∧
  showInEditor isWithinProject doc st' = st' ∧
  (_currentDocument st = Some doc → st' = st) ∧
  (_currentDocument st ≠ Some doc → isWithinProject (pathOf doc) = false →
     _findInWorkingSet st' (file doc) ≠ (-1)%Z) ∧
  (isWithinProject (pathOf doc) = true → _workingSet st' = _workingSet st).
Proof.
  simpl. pose proof (showInEditor_current isWithinProject doc st) as Hcur.
  split_and!.
  - exact Hcur.
  - unfold getDocumentForFile. rewrite Hcur. by rewrite decide_True.
  - unfold showInEditor at 1. by rewrite decide_True.
  - intros Hc. unfold showInEditor. by rewrite decide_True.
  - intros Hc Hout. unfold showInEditor. rewrite decide_False by exact Hc.
    unfold pathOf in Hout. rewrite Hout.
    rewrite (find_same_ws _ (addToWorkingSet doc st)) by done.
    apply addToWorkingSet_member.
  - intros Hin. unfold showInEditor. case_decide; [done|].
    unfold pathOf in Hin. by rewrite Hin.
Qed.

End ShowMore.

(** X8.  What [getDocumentForFile] answers has the path asked for and is the
    current document or an entry of the working set; the current document
    is answered first when its path matches; in a working set that holds
    no path twice an entry is answered for its own file unless the current
    document has that path. *)
Theorem getDocumentForFile_answers st fileEntry :
  (∀ d, getDocumentForFile st fileEntry = Some d →
        pathOf d = fullPath fileEntry ∧
        (_currentDocument st = Some d ∨ d ∈ _workingSet st)) ∧
  (∀ c, _currentDocument st = Some c → pathOf c = fullPath fileEntry →
        getDocumentForFile st fileEntry = Some c) ∧
  (∀ d, wsInv st → d ∈ _workingSet st →
        (∀ c, _currentDocument st = Some c → pathOf c ≠ pathOf d) →
        getDocumentForFile st (file d) = Some d).
Proof.
  assert (Hws : ∀ fe d,
            _findInWorkingSet st fe ≠ (-1)%Z →
            jsIndex (_workingSet st) (_findInWorkingSet st fe) = Some d →
            pathOf d = fullPath fe ∧ d ∈ _workingSet st).
  { intros fe d Hin Hd. destruct (find_jsIndex st fe Hin) as (e & He & Hmem & Hp).
    rewrite He in Hd. by injection Hd as <-. }
  split_and!.
  - intros d. unfold getDocumentForFile.
    destruct (_currentDocument st) as [c|].
    + case_decide as Hp; [intros [= <-]; split; [done|by left]|].
      case_decide as Hin; [done|]. intros Hd.
      destruct (Hws _ _ Hin Hd). split; [done|by right].
    + case_decide as Hin; [done|]. intros Hd.
      destruct (Hws _ _ Hin Hd). split; [done|by right].
  - intros c Hc Hp. unfold getDocumentForFile. rewrite Hc.
    by rewrite decide_True.
  - intros d Hinv Hd Hcur.
    apply list_elem_of_lookup in Hd as [i Hi].
    assert (Hfind : _findInWorkingSet st (file d) = Z.of_nat i).
    { apply (find_first st (file d) i d Hi eq_refl).
      intros j e' Hj Hl Hp.
      assert (Hpi : (pathOf <$> _workingSet st) !! i = Some (pathOf d))
        by (by rewrite list_lookup_fmap, Hi).
      assert (Hpj : (pathOf <$> _workingSet st) !! j = Some (pathOf d)).
      { rewrite list_lookup_fmap, Hl. simpl. by rewrite Hp. }
      pose proof (NoDup_lookup _ _ _ _ Hinv Hpi Hpj). lia. }
    unfold getDocumentForFile. rewrite Hfind, jsIndex_of_nat, Hi.
    destruct (_currentDocument st) as [c|].
    + rewrite decide_False by (by apply Hcur). by rewrite decide_False by lia.
    + by rewrite decide_False by lia.
Qed.

(** ** What the notifications tell a listener *)

Lemma mirrored_refl st : mirrored st st.
Proof. exists []. by rewrite app_nil_r. Qed.

Lemma mirrored_trans st1 st2 st3 :
  mirrored st1 st2 → mirrored st2 st3 → mirrored st1 st3.
Proof.
  intros (evs1 & Hev1 & Hf1) (evs2 & Hev2 & Hf2). exists (evs1 ++ evs2).
  split; [by rewrite Hev2, Hev1, app_assoc|]. by rewrite foldl_app, Hf1.
Qed.

Lemma mirrored_same st st' :
  _workingSet st' = _workingSet st → events st' = events st → mirrored st st'.
Proof. intros Hws Hev. exists []. by rewrite app_nil_r. Qed.

Lemma mirrored_trigger e st :
  (∀ d, e ≠ workingSetAdd d) → (∀ d, e ≠ workingSetRemove d) →
  mirrored st (trigger e st).
Proof.
  intros Hadd Hrem. exists [e]. split; [done|]. simpl.
  destruct e; try done; [by destruct (Hadd d)|by destruct (Hrem d)].
Qed.

Lemma addToWorkingSet_mirrored d st : mirrored st (addToWorkingSet d st).
Proof.
  unfold addToWorkingSet. case_decide; [|apply mirrored_refl].
  by exists [workingSetAdd d].
Qed.

Lemma _removeFromWorkingSet_mirrored d st :
  mirrored st (_removeFromWorkingSet d st).
Proof.
  unfold _removeFromWorkingSet. case_decide as Hfind; [apply mirrored_refl|].
  exists [workingSetRemove d]. split; [done|]. simpl.
  unfold _findInWorkingSet in Hfind. by rewrite decide_False.
Qed.

Lemma _updateDirty_mirrored this st :
  mirrored st (stateOf (_updateDirty this st)).
Proof.
  unfold _updateDirty. destruct (historySizeOf st this) as [h|];
    [|apply mirrored_refl].
  set (st1 := if (_ && _)%bool then _ else st).
  assert (H1 : mirrored st st1).
  { subst st1. destruct (_ && _)%bool; [by apply mirrored_same|apply mirrored_refl]. }
  clearbody st1. destruct (Bool.eqb _ _); [done|]. simpl.
  set (f := withDirty _ _).
  assert (H2 : mirrored st (trigger (dirtyFlagChange this) (writeFields this f st1))).
  { eapply mirrored_trans; [exact H1|].
    apply (mirrored_trans _ (writeFields this f st1));
      [by apply mirrored_same|by apply mirrored_trigger]. }
  destruct (negb _); [|done].
  eapply mirrored_trans; [exact H2|apply addToWorkingSet_mirrored].
Qed.

Lemma newDocument_mirrored fileEntry editor st :
  mirrored st (stateOf (newDocument fileEntry editor st)).
Proof.
  unfold newDocument. destruct (getDocumentForFile st fileEntry);
    [apply mirrored_refl|].
  unfold _setEditor. destruct editor as [w|]; simpl; [|by apply mirrored_same].
  destruct (widgets st !! w); by apply mirrored_same.
Qed.

Section Listener.

Variable isWithinProject : string -> bool.
Variable getFile : string -> option FileEntry.

Lemma showInEditor_mirrored d st : mirrored st (showInEditor isWithinProject d st).
Proof.
  unfold showInEditor. case_decide; [apply mirrored_refl|].
  set (st1 := if isWithinProject _ then st else _).
  apply (mirrored_trans _ st1).
  - subst st1. destruct isWithinProject;
      [apply mirrored_refl|apply addToWorkingSet_mirrored].
  - apply (mirrored_trans _ (setCurrent (Some d) st1));
      [by apply mirrored_same|by apply mirrored_trigger].
Qed.

Lemma closeDocument_mirrored d st : mirrored st (closeDocument isWithinProject d st).
Proof.
  unfold closeDocument.
  eapply mirrored_trans; [|apply _removeFromWorkingSet_mirrored].
  apply (mirrored_trans _ (switchAway isWithinProject d st)).
  - unfold switchAway. case_decide; [|apply mirrored_refl].
    destruct (nextDocument d st); [apply showInEditor_mirrored|].
    unfold _clearEditor. destruct (_currentDocument st); [|apply mirrored_refl].
    apply (mirrored_trans _ (setCurrent None st));
      [by apply mirrored_same|by apply mirrored_trigger].
  - unfold consoleAssert. destruct (bool_decide _); [apply mirrored_refl|].
    by apply mirrored_trigger.
Qed.

Lemma addExisting_mirrored slots af :
  ∀ ad st, mirrored st (stateOf (addExisting slots af ad st)).
Proof.
  induction slots as [|s slots IH]; intros ad st; [apply mirrored_refl|].
  destruct s as [| |value]; cbn [addExisting]; [apply IH..|].
  unfold bind at 1.
  pose proof (newDocument_mirrored value None st) as Hnew.
  destruct (newDocument value None st) as [doc st0|e st0]; simpl in Hnew; [|done].
  unfold bind at 1, lift.
  eapply mirrored_trans; [exact Hnew|].
  eapply mirrored_trans; [apply addToWorkingSet_mirrored|apply IH].
Qed.

Lemma _init_mirrored prefs order st :
  mirrored st (stateOf (_init isWithinProject getFile prefs order st)).
Proof.
  unfold _init. destruct prefs as [files|]; [|apply mirrored_refl].
  destruct (awaitAll getFile files order noResponse) as [r|]; [|apply mirrored_refl].
  unfold restoreDone, bind.
  pose proof (addExisting_mirrored (filesToOpen r) (activeFile r) Undefined st) as Hm.
  destruct (addExisting _ _ _ st) as [ad st1|e st1]; simpl in Hm; [|done].
  destruct ad as [| |d]; simpl; [done| |].
  - destruct (_workingSet st1 !! 0); simpl; [|done].
    eapply mirrored_trans; [exact Hm|apply showInEditor_mirrored].
  - eapply mirrored_trans; [exact Hm|apply showInEditor_mirrored].
Qed.

Lemma step_mirrored st st' :
  step isWithinProject getFile st st' → mirrored st st'.
Proof.
  intros Hstep. destruct Hstep.
  - by apply mirrored_same.
  - apply newDocument_mirrored.
  - apply addToWorkingSet_mirrored.
  - apply showInEditor_mirrored.
  - apply closeDocument_mirrored.
  - unfold editorChanged. destruct (widgets st !! w) as [cm|]; [|apply mirrored_refl].
    destruct (onChange cm) as [this|]; [|by apply mirrored_same].
    eapply mirrored_trans; [|apply _updateDirty_mirrored]. by apply mirrored_same.
  - unfold markClean. destruct (historySizeOf st d); [|apply mirrored_refl].
    eapply mirrored_trans; [|apply _updateDirty_mirrored]. by apply mirrored_same.
  - apply _init_mirrored.
  - unfold _setEditor. destruct editor as [w|]; [|apply mirrored_refl]. simpl.
    destruct (widgets st !! w); by apply mirrored_same.
Qed.

(** X9.  A listener of [workingSetAdd] and [workingSetRemove] that starts with
    an empty copy holds the working set itself in every reachable state:
    the two notifications tell every change of the list, and removal by
    the path of the notified document finds the entry that went. *)
Theorem notifications_mirror_working_set st :
  reachable isWithinProject getFile st →
  foldl mirror [] (events st) = _workingSet st.
Proof.
  induction 1 as [|st st' _ IH Hstep]; [done|].
  destruct (step_mirrored st st' Hstep) as (evs & Hev & Hf).
  by rewrite Hev, foldl_app, IH.
Qed.

End Listener.

(** *** The current document and [currentDocumentChange] *)

Lemma calm_refl st : calm st st.
Proof.
  split; [done|]. exists []. split; [by rewrite app_nil_r|apply not_elem_of_nil].
Qed.

Lemma calm_trans st1 st2 st3 : calm st1 st2 → calm st2 st3 → calm st1 st3.
Proof.
  intros (Hc1 & evs1 & Hev1 & Hno1) (Hc2 & evs2 & Hev2 & Hno2).
  split; [congruence|]. exists (evs1 ++ evs2).
  split; [by rewrite Hev2, Hev1, app_assoc|].
  intros Hin. apply elem_of_app in Hin as [Hin|Hin]; done.
Qed.

Lemma calm_same st st' :
  _currentDocument st' = _currentDocument st → events st' = events st →
  calm st st'.
Proof.
  intros Hc Hev. split; [done|]. exists [].
  split; [by rewrite app_nil_r|apply not_elem_of_nil].
Qed.

Lemma calm_trigger e st : e ≠ currentDocumentChange → calm st (trigger e st).
Proof.
  intros He. split; [done|]. exists [e]. split; [done|].
  intros Hin. by apply list_elem_of_singleton in Hin.
Qed.

Lemma calm_switched st1 st2 st3 :
  calm st1 st2 → switched st2 st3 → switched st1 st3.
Proof.
  intros (Hc1 & evs1 & Hev1 & Hno1) (Hc2 & before & after & Hev2 & Hb & Ha).
  split; [congruence|]. exists (evs1 ++ before), after.
  split_and!; [by rewrite Hev2, Hev1, <- !app_assoc| |done].
  intros Hin. apply elem_of_app in Hin as [Hin|Hin]; done.
Qed.

Lemma switched_calm st1 st2 st3 :
  switched st1 st2 → calm st2 st3 → switched st1 st3.
Proof.
  intros (Hc1 & before & after & Hev1 & Hb & Ha) (Hc2 & evs2 & Hev2 & Hno2).
  split; [congruence|]. exists before, (after ++ evs2).
  split_and!; [by rewrite Hev2, Hev1, <- !app_assoc|done|].
  intros Hin. apply elem_of_app in Hin as [Hin|Hin]; done.
Qed.

Lemma addToWorkingSet_calm d st : calm st (addToWorkingSet d st).
Proof.
  unfold addToWorkingSet. case_decide; [|apply calm_refl].
  apply (calm_trans _ (setWorkingSet (_workingSet st ++ [d]) st));
    [by apply calm_same|by apply calm_trigger].
Qed.

Lemma _removeFromWorkingSet_calm d st : calm st (_removeFromWorkingSet d st).
Proof.
  unfold _removeFromWorkingSet. case_decide; [apply calm_refl|].
  match goal with |- calm _ (trigger _ ?s) => apply (calm_trans _ s) end;
    [by apply calm_same|by apply calm_trigger].
Qed.

Lemma _updateDirty_calm this st : calm st (stateOf (_updateDirty this st)).
Proof.
  unfold _updateDirty. destruct (historySizeOf st this) as [h|]; [|apply calm_refl].
  set (st1 := if (_ && _)%bool then _ else st).
  assert (H1 : calm st st1).
  { subst st1. destruct (_ && _)%bool; [by apply calm_same|apply calm_refl]. }
  clearbody st1. destruct (Bool.eqb _ _); [done|]. simpl.
  set (f := withDirty _ _).
  assert (H2 : calm st (trigger (dirtyFlagChange this) (writeFields this f st1))).
  { eapply calm_trans; [exact H1|].
    apply (calm_trans _ (writeFields this f st1));
      [by apply calm_same|by apply calm_trigger]. }
  destruct (negb _); [|done].
  eapply calm_trans; [exact H2|apply addToWorkingSet_calm].
Qed.

Lemma newDocument_calm fileEntry editor st :
  calm st (stateOf (newDocument fileEntry editor st)).
Proof.
  unfold newDocument. destruct (getDocumentForFile st fileEntry); [apply calm_refl|].
  unfold _setEditor. destruct editor as [w|]; simpl; [|by apply calm_same].
  destruct (widgets st !! w); by apply calm_same.
Qed.

Section CurrentChange.

Variable isWithinProject : string -> bool.
Variable getFile : string -> option FileEntry.

Lemma switched_here st st1 c :
  calm st st1 → _currentDocument st ≠ c →
  switched st (trigger currentDocumentChange (setCurrent c st1)).
Proof.
  intros (Hc & evs & Hev & Hno) Hne. split; [done|].
  exists evs, []. simpl. rewrite Hev, <- app_assoc.
  split_and!; [done|done|apply not_elem_of_nil].
Qed.

Lemma showInEditor_change d st :
  calm st (showInEditor isWithinProject d st) ∨
  switched st (showInEditor isWithinProject d st).
Proof.
  unfold showInEditor. case_decide as Hcur; [left; apply calm_refl|right].
  apply switched_here; [|done].
  destruct isWithinProject; [apply calm_refl|apply addToWorkingSet_calm].
Qed.

Lemma _clearEditor_change st :
  calm st (_clearEditor st) ∨ switched st (_clearEditor st).
Proof.
  unfold _clearEditor. destruct (_currentDocument st) as [c|] eqn:Hc;
    [right|left; apply calm_refl].
  apply switched_here; [apply calm_refl|by rewrite Hc].
Qed.

Lemma closeDocument_change d st :
  calm st (closeDocument isWithinProject d st) ∨
  switched st (closeDocument isWithinProject d st).
Proof.
  unfold closeDocument.
  set (st1 := switchAway isWithinProject d st).
  set (st2 := consoleAssert _ st1).
  assert (Hrest : calm st1 (_removeFromWorkingSet d st2)).
  { apply (calm_trans _ st2); [|apply _removeFromWorkingSet_calm].
    subst st2. unfold consoleAssert. destruct (bool_decide _);
      [apply calm_refl|by apply calm_trigger]. }
  assert (Hsw : calm st st1 ∨ switched st st1).
  { subst st1. unfold switchAway. case_decide; [|left; apply calm_refl].
    destruct (nextDocument d st);
      [apply showInEditor_change|apply _clearEditor_change]. }
  destruct Hsw as [Hsw|Hsw]; [left|right].
  - by eapply calm_trans.
  - by eapply switched_calm.
Qed.

Lemma addExisting_calm slots af :
  ∀ ad st, calm st (stateOf (addExisting slots af ad st)).
Proof.
  induction slots as [|s slots IH]; intros ad st; [apply calm_refl|].
  destruct s as [| |value]; cbn [addExisting]; [apply IH..|].
  unfold bind at 1.
  pose proof (newDocument_calm value None st) as Hnew.
  destruct (newDocument value None st) as [doc st0|e st0]; simpl in Hnew; [|done].
  unfold bind at 1, lift.
  eapply calm_trans; [exact Hnew|].
  eapply calm_trans; [apply addToWorkingSet_calm|apply IH].
Qed.

Lemma _init_change prefs order st :
  calm st (stateOf (_init isWithinProject getFile prefs order st)) ∨
  switched st (stateOf (_init isWithinProject getFile prefs order st)).
Proof.
  unfold _init. destruct prefs as [files|]; [|left; apply calm_refl].
  destruct (awaitAll getFile files order noResponse) as [r|];
    [|left; apply calm_refl].
  unfold restoreDone, bind.
  pose proof (addExisting_calm (filesToOpen r) (activeFile r) Undefined st) as Hc.
  destruct (addExisting _ _ _ st) as [ad st1|e st1]; simpl in Hc; [|by left].
  assert (Hshow : ∀ d, calm st (showInEditor isWithinProject d st1) ∨
                       switched st (showInEditor isWithinProject d st1)).
  { intros d. destruct (showInEditor_change d st1) as [H|H]; [left|right].
    - by eapply calm_trans.
    - by eapply calm_switched. }
  destruct ad as [| |d]; simpl; [by left| |apply Hshow].
  destruct (_workingSet st1 !! 0); simpl; [apply Hshow|by left].
Qed.

(** X10.  In every step of the module the current document changes exactly
    when [currentDocumentChange] is emitted, and it is emitted at most
    once: either the current document stays and the step emits no
    [currentDocumentChange], or it changes and the step emits one. *)
Theorem current_change_is_notified st st' :
  step isWithinProject getFile st st' → calm st st' ∨ switched st st'.
Proof.
  intros Hstep. destruct Hstep.
  - left. by apply calm_same.
  - left. apply newDocument_calm.
  - left. apply addToWorkingSet_calm.
  - apply showInEditor_change.
  - apply closeDocument_change.
  - left. unfold editorChanged.
    destruct (widgets st !! w) as [cm|]; [|apply calm_refl].
    destruct (onChange cm) as [this|]; [|by apply calm_same].
    eapply calm_trans; [|apply _updateDirty_calm]. by apply calm_same.
  - left. unfold markClean. destruct (historySizeOf st d); [|apply calm_refl].
    eapply calm_trans; [|apply _updateDirty_calm]. by apply calm_same.
  - apply _init_change.
  - left. unfold _setEditor. destruct editor as [w|]; [|apply calm_refl]. simpl.
    destruct (widgets st !! w); by apply calm_same.
Qed.

End CurrentChange.

(** ** Saving and restoring the working set *)

Lemma _savePreferences_lookup st i v :
  _savePreferences st !! i = Some v →
  ∃ d, _workingSet st !! i = Some d ∧ storedPath v = pathOf d ∧
       (active v = true ↔ _currentDocument st = Some d).
Proof.
  unfold _savePreferences, getWorkingSet, getCurrentDocument.
  rewrite list_lookup_fmap.
  destruct (_workingSet st !! i) as [d|]; [|done]. simpl. intros [= <-].
  exists d. simpl. split_and!; [done|done|].
  rewrite bool_decide_eq_true. split; congruence.
Qed.

(** X11.  [_savePreferences] writes one record per working-set entry, in the
    order of the working set, with the entry's full path; a record is
    flagged active exactly when its entry is the current document; so a
    record is flagged exactly when the current document is in the working
    set, and only one is when the working set holds no path twice. *)
Theorem _savePreferences_records st :
  storedPath <$> _savePreferences st = pathOf <$> _workingSet st ∧
  (∀ i v, _savePreferences st !! i = Some v →
          ∃ d, _workingSet st !! i = Some d ∧ storedPath v = pathOf d ∧
               (active v = true ↔ _currentDocument st = Some d)) ∧
  ((∃ v, v ∈ _savePreferences st ∧ active v = true) ↔
   ∃ c, _currentDocument st = Some c ∧ c ∈ _workingSet st) ∧
  (wsInv st →
   ∀ i j vi vj, _savePreferences st !! i = Some vi →
                _savePreferences st !! j = Some vj →
                active vi = true → active vj = true → i = j).
Proof.
  pose proof (_savePreferences_lookup st) as Hrec.
  split_and!.
  - unfold _savePreferences, getWorkingSet. rewrite <- list_fmap_compose.
    by apply list_fmap_ext.
  - exact Hrec.
  - split.
    + intros (v & Hv & Hactive). apply list_elem_of_lookup in Hv as [i Hi].
      destruct (Hrec i v Hi) as (d & Hd & _ & Hiff).
      exists d. split; [by apply Hiff|by eapply list_elem_of_lookup_2].
    + intros (c & Hc & Hin). apply list_elem_of_lookup in Hin as [i Hi].
      exists {| storedPath := fullPath (file c); active := true |}. split; [|done].
      apply list_elem_of_lookup. exists i.
      unfold _savePreferences, getWorkingSet, getCurrentDocument.
      rewrite list_lookup_fmap, Hi, Hc. simpl. by rewrite bool_decide_eq_true_2.
  - intros Hinv i j vi vj Hi Hj Hai Haj.
    destruct (Hrec i vi Hi) as (di & Hdi & _ & Hiffi).
    destruct (Hrec j vj Hj) as (dj & Hdj & _ & Hiffj).
    apply Hiffi in Hai. apply Hiffj in Haj.
    assert (di = dj) as -> by congruence.
    assert (Hpi : (pathOf <$> _workingSet st) !! i = Some (pathOf dj))
      by (by rewrite list_lookup_fmap, Hdi).
    assert (Hpj : (pathOf <$> _workingSet st) !! j = Some (pathOf dj))
      by (by rewrite list_lookup_fmap, Hdj).
    exact (NoDup_lookup _ _ _ _ Hinv Hpi Hpj).
Qed.

Lemma pathOf_built from fs : pathOf <$> built from fs = fullPath <$> fs.
Proof.
  revert from. induction fs as [|fe fs IH]; intros from; [done|].
  rewrite built_cons. simpl. by rewrite IH.
Qed.

Section SaveRestore.

Variable isWithinProject : string -> bool.
Variable getFile : string -> option FileEntry.

(** A restore in which each record answers once, from a state in which
    the resolved files are closed and differ in path. *)
Lemma restore_outcome files order st :
  order ≡ₚ seq 0 (length files) →
  NoDup (fullPath <$> survivors getFile files) →
  (∀ fe, fe ∈ survivors getFile files → getDocumentForFile st fe = None) →
  ∃ st',
    _init isWithinProject getFile (Some files) order st = Returned tt st' ∧
    _workingSet st' =
      _workingSet st ++ built (length (documents st)) (survivors getFile files) ∧
    ∀ k vk fileEntry,
      files !! k = Some vk → active vk = true →
      getFile (storedPath vk) = Some fileEntry →
      (∀ j v, files !! j = Some v → active v = true →
              is_Some (getFile (storedPath v)) → j = k) →
      ∃ d, _currentDocument st' = Some d ∧ file d = fileEntry.
Proof.
  intros Hperm Hnd Hclosed. unfold _init.
  destruct order as [|i order].
  { apply Permutation_nil_l in Hperm.
    assert (files = []) as -> by (by destruct files).
    exists st. simpl. rewrite app_nil_r. by split_and!. }
  assert (Hvalid : Forall (λ i, i < length files) (i :: order)).
  { apply Forall_forall. intros j Hj. rewrite Hperm, elem_of_seq in Hj. lia. }
  assert (Hlen : length (i :: order) = length files).
  { by rewrite Hperm, length_seq. }
  rewrite (awaitAll_fold getFile files (i :: order) noResponse Hvalid);
    [|simpl in *; lia|done|done].
  set (r := foldl _ noResponse (i :: order)).
  assert (Hslots : filesToOpen r = slotOf getFile <$> files).
  { destruct (awaitAll_collects getFile files (i :: order) [] noResponse)
      as (r' & Hr' & Hs); simpl; try done.
    - rewrite Hperm. apply NoDup_seq.
    - intros j. rewrite Hperm, elem_of_seq. lia.
    - lia.
    - intros j value Hj. by apply elem_of_nil in Hj.
    - rewrite (awaitAll_fold getFile files (i :: order) noResponse Hvalid) in Hr';
        [|simpl in *; lia|done|done].
      injection Hr' as <-. exact Hs. }
  unfold restoreDone, bind. rewrite Hslots.
  destruct (addExisting_appends (slotOf getFile <$> files) st (activeFile r) Undefined)
    as (ad & st1 & Hrun & Hws & _ & _ & Hobj & Hact).
  - by rewrite entriesOf_slotOf.
  - intros fe. rewrite entriesOf_slotOf. apply Hclosed.
  - rewrite Hrun. rewrite entriesOf_slotOf in Hws, Hobj, Hact.
    assert (Hshow : ∀ d, d ∈ _workingSet st1 →
              _workingSet (showInEditor isWithinProject d st1) = _workingSet st1).
    { intros d Hd. apply showInEditor_member_ws. by apply (find_present _ _ d). }
    assert (Hactive : ∀ k vk fileEntry,
              files !! k = Some vk → active vk = true →
              getFile (storedPath vk) = Some fileEntry →
              (∀ j v, files !! j = Some v → active v = true →
                      is_Some (getFile (storedPath v)) → j = k) →
              ∃ d, ad = Obj d ∧ file d = fileEntry).
    { intros k vk fe Hk Hav Hres Honly.
      assert (Haf : activeFile r = Some fe).
      { apply (foldl_respond_activeFile getFile files k vk); try done. left.
        rewrite Hperm, elem_of_seq. apply lookup_lt_Some in Hk. lia. }
      apply (Hact fe Haf). unfold survivors. apply list_elem_of_omap.
      exists vk. split; [by eapply list_elem_of_lookup_2|done]. }
    destruct ad as [| |d].
    + exists st1. split_and!; [done|done|].
      intros k vk fe Hk Hav Hres Honly.
      by destruct (Hactive k vk fe Hk Hav Hres Honly) as (d & ? & _).
    + assert (Hnever : ∀ k vk fileEntry,
                files !! k = Some vk → active vk = true →
                getFile (storedPath vk) = Some fileEntry →
                (∀ j v, files !! j = Some v → active v = true →
                        is_Some (getFile (storedPath v)) → j = k) → False).
      { intros k vk fe Hk Hav Hres Honly.
        by destruct (Hactive k vk fe Hk Hav Hres Honly) as (d & ? & _). }
      destruct (_workingSet st1 !! 0) as [d|] eqn:Hd.
      * eexists. split_and!; [done| |].
        -- rewrite Hshow; [done|]. by eapply list_elem_of_lookup_2.
        -- intros k vk fe Hk Hav Hres Honly.
           destruct (Hnever k vk fe Hk Hav Hres Honly).
      * exists st1. split_and!; [done|done|].
        intros k vk fe Hk Hav Hres Honly.
        destruct (Hnever k vk fe Hk Hav Hres Honly).
    + exists (showInEditor isWithinProject d st1). split_and!; [done| |].
      * rewrite Hshow; [done|]. destruct (Hobj d eq_refl) as [|Hin]; [done|].
        rewrite Hws. apply elem_of_app. by right.
      * intros k vk fe Hk Hav Hres Honly.
        destruct (Hactive k vk fe Hk Hav Hres Honly) as (d' & [= <-] & Hfile).
        exists d. split; [apply showInEditor_current|done].
Qed.

End SaveRestore.

Section RoundTrip.

Variable isWithinProject : string -> bool.
Variable getFile : string -> option FileEntry.

Lemma survivors_of_saved (f : Document → bool) (ws : list Document) :
  (∀ d, d ∈ ws → ∃ fe, getFile (pathOf d) = Some fe ∧ fullPath fe = pathOf d) →
  fullPath <$>
    survivors getFile
      ((λ d, {| storedPath := fullPath (file d); active := f d |}) <$> ws)
  = pathOf <$> ws.
Proof.
  induction ws as [|d ws IH]; intros Hres; [done|].
  destruct (Hres d ltac:(apply list_elem_of_here)) as (fe & Hfe & Hp).
  unfold survivors in *. simpl. unfold pathOf in Hfe. rewrite Hfe. simpl.
  rewrite Hp. f_equal. apply IH. intros x Hx. apply Hres.
  by apply list_elem_of_further.
Qed.

(** X12.  Saving and restoring.  Take a state whose working set holds no path
    twice and a file system in which each of its paths resolves to an
    entry of that path.  Restoring what [_savePreferences] wrote, from the
    initial state and whatever the order of the responses, returns and
    gives a working set with the same paths in the same order; when the
    current document was in the working set the new current document has
    its path; when it was not, no document is current. *)
Theorem save_then_restore st order :
  wsInv st →
  (∀ d, d ∈ _workingSet st →
        ∃ fe, getFile (pathOf d) = Some fe ∧ fullPath fe = pathOf d) →
  order ≡ₚ seq 0 (length (_workingSet st)) →
  ∃ st',
    _init isWithinProject getFile (Some (_savePreferences st)) order initial
    = Returned tt st' ∧
    pathOf <$> _workingSet st' = pathOf <$> _workingSet st ∧
    (∀ c, _currentDocument st = Some c → c ∈ _workingSet st →
          ∃ c', _currentDocument st' = Some c' ∧ pathOf c' = pathOf c) ∧
    ((∀ c, _currentDocument st = Some c → c ∉ _workingSet st) →
     _currentDocument st' = None).
Proof.
  intros Hinv Hres Hperm.
  set (files := _savePreferences st).
  assert (Hlen : length files = length (_workingSet st)).
  { subst files. unfold _savePreferences, getWorkingSet. by rewrite length_fmap. }
  assert (Hpaths : fullPath <$> survivors getFile files = pathOf <$> _workingSet st).
  { subst files. unfold _savePreferences, getWorkingSet.
    by apply survivors_of_saved. }
  destruct (restore_outcome isWithinProject getFile files order initial)
    as (st' & Hrun & Hws & Hactive).
  - by rewrite Hlen.
  - rewrite Hpaths. exact Hinv.
  - done.
  - exists st'. split; [exact Hrun|]. split_and!.
    + rewrite Hws. simpl. by rewrite pathOf_built.
    + intros c Hc Hin. apply list_elem_of_lookup in Hin as [k Hk].
      destruct (Hres c ltac:(by eapply list_elem_of_lookup_2)) as (fe & Hfe & Hp).
      destruct (Hactive k
                  {| storedPath := fullPath (file c);
                     active := bool_decide (Some c = _currentDocument st) |} fe)
        as (d & Hd & Hfile).
      * subst files. unfold _savePreferences, getWorkingSet, getCurrentDocument.
        by rewrite list_lookup_fmap, Hk.
      * simpl. by rewrite bool_decide_eq_true_2.
      * exact Hfe.
      * intros j v Hj Hav _.
        destruct (_savePreferences_lookup st j v Hj)
          as (dj & Hdj & _ & Hiff).
        apply Hiff in Hav. assert (dj = c) as -> by congruence.
        assert (Hpj : (pathOf <$> _workingSet st) !! j = Some (pathOf c))
          by (by rewrite list_lookup_fmap, Hdj).
        assert (Hpk : (pathOf <$> _workingSet st) !! k = Some (pathOf c))
          by (by rewrite list_lookup_fmap, Hk).
        exact (NoDup_lookup _ _ _ _ Hinv Hpj Hpk).
      * exists d. split; [exact Hd|]. unfold pathOf at 1. by rewrite Hfile.
    + intros Hout.
      pose proof (restore_without_active_flag isWithinProject getFile
                    files order initial) as Hcur.
      rewrite Hrun in Hcur. simpl in Hcur. apply Hcur.
      apply Forall_forall. intros v Hv Hav. exfalso.
      apply list_elem_of_lookup in Hv as [j Hj].
      destruct (_savePreferences_lookup st j v Hj)
        as (dj & Hdj & _ & Hiff).
      apply Hiff in Hav. apply (Hout dj Hav). by eapply list_elem_of_lookup_2.
Qed.

(** X13.  A stored list of no record: the deferred is never resolved, so the
    restore does nothing, whatever responses arrive. *)
Theorem restore_of_no_record order st :
  _init isWithinProject getFile (Some []) order st = Returned tt st.
Proof.
  unfold _init.
  assert (Hnever : ∀ r, resolved r = false → awaitAll getFile [] order r = None).
  { induction order as [|i order IH]; intros r Hr; [done|].
    cbn [awaitAll]. unfold respond. rewrite lookup_nil, Hr. by apply IH. }
  by rewrite Hnever.
Qed.

End RoundTrip.

Section Clash.

Variable isWithinProject : string -> bool.
Variable getFile : string -> option FileEntry.

Lemma addExisting_clash slots :
  ∀ st af ad,
    (¬ NoDup (fullPath <$> entriesOf slots) ∨
     ∃ fe, fe ∈ entriesOf slots ∧ is_Some (getDocumentForFile st fe)) →
    ∃ st', addExisting slots af ad st = Threw DocumentAlreadyExists st'.
Proof.
  induction slots as [|s slots IH]; intros st af ad Hbad.
  - exfalso. destruct Hbad as [Hdup|(fe & Hfe & _)].
    + apply Hdup. apply NoDup_nil_2.
    + by apply elem_of_nil in Hfe.
  - destruct s as [| |value]; cbn [addExisting]; [by apply IH..|].
    change (entriesOf (Entry value :: slots)) with (value :: entriesOf slots) in Hbad.
    unfold bind at 1. unfold newDocument.
    destruct (getDocumentForFile st value) as [open|] eqn:Hopen; [by eexists|].
    simpl. unfold bind at 1, lift.
    set (doc := {| docId := length (documents st); file := value |}).
    set (st0 := setDocuments _ _).
    apply getDocumentForFile_None in Hopen as [Hcur Hws].
    assert (Habs : _findInWorkingSet st0 (file doc) = (-1)%Z)
      by (by apply find_absent).
    rewrite (addToWorkingSet_absent doc st0 Habs).
    set (st1 := trigger _ _).
    assert (Hopen1 : ∀ fe, fullPath fe = fullPath value →
                           is_Some (getDocumentForFile st1 fe)).
    { intros fe Hp. apply getDocumentForFile_Some. exists doc. split; [|done].
      right. subst st1 st0. simpl. apply elem_of_app. right. apply list_elem_of_here. }
    assert (Hkeep : ∀ fe, is_Some (getDocumentForFile st fe) →
                          is_Some (getDocumentForFile st1 fe)).
    { intros fe Hfe. apply getDocumentForFile_Some.
      apply getDocumentForFile_Some in Hfe as (d & [Hd|Hd] & Hp);
        exists d; (split; [|done]); [by left|right].
      subst st1 st0. simpl. apply elem_of_app. by left. }
    apply IH. destruct Hbad as [Hdup|(fe & Hfe & Hsome)].
    + rewrite fmap_cons, NoDup_cons in Hdup.
      destruct (decide (fullPath value ∈ fullPath <$> entriesOf slots)) as [Hin|Hout].
      * right. apply list_elem_of_fmap in Hin as (fe & Hp & Hfe).
        exists fe. split; [done|]. by apply Hopen1.
      * left. intros Hnd. by apply Hdup.
    + apply elem_of_cons in Hfe as [->|Hfe].
      * exfalso. destruct Hsome as [d Hd].
        assert (getDocumentForFile st value = None) as Hnone
          by (by apply getDocumentForFile_None).
        congruence.
      * right. exists fe. split; [done|by apply Hkeep].
Qed.

(** X14.  A restore throws "already exists", wherever the responses arrive in
    turn, when two stored records resolve to the same path or one resolves
    to the path of a document that is open. *)
Theorem restore_rejects_same_path files order st :
  order ≡ₚ seq 0 (length files) →
  (¬ NoDup (fullPath <$> survivors getFile files) ∨
   ∃ fe, fe ∈ survivors getFile files ∧ is_Some (getDocumentForFile st fe)) →
  ∃ st',
    _init isWithinProject getFile (Some files) order st
    = Threw DocumentAlreadyExists st'.
Proof.
  intros Hperm Hbad. unfold _init.
  destruct order as [|i order].
  { exfalso. apply Permutation_nil_l in Hperm.
    assert (files = []) as -> by (by destruct files).
    destruct Hbad as [Hdup|(fe & Hfe & _)].
    - apply Hdup. apply NoDup_nil_2.
    - by apply elem_of_nil in Hfe. }
  destruct (awaitAll_collects getFile files (i :: order) [] noResponse)
    as (r & Hr & Hslots); simpl; try done.
  - rewrite Hperm. apply NoDup_seq.
  - intros j. rewrite Hperm, elem_of_seq. lia.
  - lia.
  - intros j value Hj. by apply elem_of_nil in Hj.
  - simpl in Hr. rewrite Hr. unfold restoreDone, bind. rewrite Hslots.
    destruct (addExisting_clash (slotOf getFile <$> files) st (activeFile r) Undefined)
      as [st' Hrun].
    + by rewrite entriesOf_slotOf.
    + rewrite Hrun. by exists st'.
Qed.

End Clash.

(** ** More on the dirty bit *)

(** X16.  After a save at any undo depth: as long as no change notification
    finds the undo depth below the watermark with an empty redo stack, the
    watermark stays, and after each notification [isDirty] tells whether
    the undo depth differs from it; undoing or redoing back to the saved
    depth clears the flag. *)
Theorem dirty_bit_follows_watermark this w hs :
  ∀ st,
    _editor (fieldsOf st this) = Some w →
    (∃ cm, widgets st !! w = Some cm ∧ onChange cm = Some this) →
    Forall (λ h, ¬ ((undo h < _savedUndoPosition (fieldsOf st this))%Z ∧
                    redo h = 0%Z)) hs →
    ∃ st',
      editorChanges w hs st = Returned tt st' ∧
      _savedUndoPosition (fieldsOf st' this) = _savedUndoPosition (fieldsOf st this) ∧
      isDirty (fieldsOf st' this) =
        match last hs with
        | Some h => negb (undo h =? _savedUndoPosition (fieldsOf st this))%Z
        | None => isDirty (fieldsOf st this)
        end.
Proof.
  induction hs as [|h hs IH]; intros st He (cm & Hw & Hon) Hok.
  - exists st. by split_and!.
  - apply Forall_cons in Hok as [Hh Hok].
    destruct (editorChanged_spec st w cm this h Hw Hon He)
      as (st1 & Hrun & Hf & _ & Hwid & _ & _ & _).
    assert (Hcond : ((undo h <? _savedUndoPosition (fieldsOf st this))%Z
                     && (redo h =? 0)%Z)%bool = false).
    { apply andb_false_iff.
      destruct (Z.ltb_spec (undo h) (_savedUndoPosition (fieldsOf st this)));
        [|by left].
      right. apply Z.eqb_neq. intros Hr. by apply Hh. }
    rewrite Hcond in Hf.
    destruct (IH st1) as (st' & Hrun' & Hsaved & Hdirty).
    + by rewrite Hf.
    + eexists. rewrite Hwid, lookup_insert_eq. by split.
    + by rewrite Hf.
    + exists st'. simpl. unfold bind. rewrite Hrun. split; [exact Hrun'|].
      rewrite Hf in Hsaved, Hdirty. simpl in Hsaved, Hdirty.
      split; [exact Hsaved|].
      rewrite last_cons. by destruct (last hs).
Qed.

(** ** The debugging string *)

Lemma list_ascii_of_string_append s t :
  list_ascii_of_string (String.append s t)
  = list_ascii_of_string s ++ list_ascii_of_string t.
Proof. induction s as [|a s IH]; simpl; [done|by rewrite IH]. Qed.

Lemma list_ascii_of_string_inj s t :
  list_ascii_of_string s = list_ascii_of_string t → s = t.
Proof.
  intros H. rewrite <- (string_of_list_ascii_of_string s),
    <- (string_of_list_ascii_of_string t). by rewrite H.
Qed.

(** X18.  [toString] tells the path and the dirty flag: two documents print
    alike only if they have the same path and the same flag. *)
Theorem toString_tells_path_and_flag st st' d d' :
  toString st d = toString st' d' →
  pathOf d = pathOf d' ∧ isDirty (fieldsOf st d) = isDirty (fieldsOf st' d').
Proof.
  unfold toString, pathOf. intros Heq. apply String.app_inj in Heq.
  apply (f_equal list_ascii_of_string) in Heq.
  rewrite !list_ascii_of_string_append in Heq.
  destruct (isDirty (fieldsOf st d)), (isDirty (fieldsOf st' d')); simpl in Heq.
  - apply app_inj_2 in Heq as [Hp _]; [|done].
    split; [by apply list_ascii_of_string_inj|done].
  - exfalso.
    change (list_ascii_of_string (fullPath (file d))
              ++ list_ascii_of_string " " ++ list_ascii_of_string "(dirty!)]"
            = list_ascii_of_string (fullPath (file d'))
              ++ list_ascii_of_string " (clean)]") in Heq.
    rewrite app_assoc in Heq. by apply app_inj_2 in Heq as [_ [=]].
  - exfalso.
    change (list_ascii_of_string (fullPath (file d))
              ++ list_ascii_of_string " (clean)]"
            = list_ascii_of_string (fullPath (file d'))
              ++ list_ascii_of_string " " ++ list_ascii_of_string "(dirty!)]") in Heq.
    rewrite (app_assoc _ (list_ascii_of_string " ")) in Heq. by apply app_inj_2 in Heq as [_ [=]].
  - apply app_inj_2 in Heq as [Hp _]; [|done].
    split; [by apply list_ascii_of_string_inj|done].
Qed.

(** ** Further sample runs *)

Lemma threeOpen_wsInv : wsInv threeOpen.
Proof. exact (reachable_wsInv _ _ _ threeOpen_reachable). Qed.

(** Adding and removing [docX] in [threeOpen]. *)
Lemma remove_after_add_witness :
  _findInWorkingSet threeOpen (file docX) = (-1)%Z ∧
  _workingSet (_removeFromWorkingSet docX (addToWorkingSet docX threeOpen))
  = _workingSet threeOpen.
Proof.
  split; [reflexivity|].
  exact (proj1 (remove_after_add docX threeOpen eq_refl)).
Defined.

(** Closing [docA], the first entry of [threeOpen], while [docB] is
    shown. *)
Lemma closeDocument_not_current_witness :
  _currentDocument threeOpen ≠ Some docA ∧
  _workingSet threeOpen !! 0 = Some docA ∧
  _workingSet (closeDocument insideProject docA threeOpen) = [docB; docC] ∧
  _currentDocument (closeDocument insideProject docA threeOpen) = Some docB.
Proof.
  assert (Hcur : _currentDocument threeOpen ≠ Some docA) by discriminate.
  assert (Hl : _workingSet threeOpen !! 0 = Some docA) by reflexivity.
  split_and!; [exact Hcur|exact Hl|..];
    rewrite (closeDocument_not_current insideProject threeOpen docA 0 docA
               Hcur Hl eq_refl ltac:(intros; lia));
    reflexivity.
Defined.

Lemma closeDocument_twice_witness :
  wsInv threeOpen ∧
  closeDocument insideProject docB (closeDocument insideProject docB threeOpen)
  = closeDocument insideProject docB threeOpen.
Proof.
  split; [exact threeOpen_wsInv|].
  exact (closeDocument_twice insideProject threeOpen docB threeOpen_wsInv).
Defined.

Lemma closeDocument_closes_witness :
  wsInv threeOpen ∧
  (∀ c, _currentDocument threeOpen = Some c → c = docB ∨ pathOf c ≠ pathOf docB) ∧
  getDocumentForFile (closeDocument insideProject docB threeOpen) (file docB) = None.
Proof.
  assert (Hcur : ∀ c, _currentDocument threeOpen = Some c →
                      c = docB ∨ pathOf c ≠ pathOf docB).
  { intros c Hc. left. vm_compute in Hc. by injection Hc as <-. }
  split_and!; [exact threeOpen_wsInv|exact Hcur|].
  exact (closeDocument_closes insideProject threeOpen docB threeOpen_wsInv Hcur).
Defined.

Lemma closeDocument_notifications_witness :
  wsInv threeOpen ∧
  events (closeDocument insideProject docB threeOpen)
  = events threeOpen ++ [currentDocumentChange; workingSetRemove docB].
Proof.
  split; [exact threeOpen_wsInv|].
  exact (closeDocument_notifications insideProject threeOpen docB threeOpen_wsInv).
Defined.

Lemma notifications_mirror_working_set_witness :
  reachable insideProject sampleGetFile threeOpen ∧
  foldl mirror [] (events threeOpen) = [docA; docB; docC].
Proof.
  split; [exact threeOpen_reachable|].
  exact (notifications_mirror_working_set insideProject sampleGetFile threeOpen
           threeOpen_reachable).
Defined.

Lemma current_change_is_notified_witness :
  step insideProject sampleGetFile threeOpen
    (closeDocument insideProject docB threeOpen) ∧
  (calm threeOpen (closeDocument insideProject docB threeOpen) ∨
   switched threeOpen (closeDocument insideProject docB threeOpen)).
Proof.
  assert (Hstep : step insideProject sampleGetFile threeOpen
                    (closeDocument insideProject docB threeOpen)).
  { apply step_close. vm_compute. repeat constructor. }
  split; [exact Hstep|].
  exact (current_change_is_notified insideProject sampleGetFile _ _ Hstep).
Defined.

(** [threeOpen] is saved, then restored in a file system that knows every
    path, the answers arriving as [2; 0; 1]. *)
Lemma save_then_restore_witness :
  wsInv threeOpen ∧
  [2; 0; 1] ≡ₚ seq 0 (length (_workingSet threeOpen)) ∧
  ∃ st',
    _init insideProject everyFile (Some (_savePreferences threeOpen)) [2; 0; 1] initial
    = Returned tt st' ∧
    pathOf <$> _workingSet st' = pathOf <$> _workingSet threeOpen ∧
    (∀ c, _currentDocument threeOpen = Some c → c ∈ _workingSet threeOpen →
          ∃ c', _currentDocument st' = Some c' ∧ pathOf c' = pathOf c) ∧
    ((∀ c, _currentDocument threeOpen = Some c → c ∉ _workingSet threeOpen) →
     _currentDocument st' = None).
Proof.
  assert (Hperm : [2; 0; 1] ≡ₚ seq 0 (length (_workingSet threeOpen))).
  { change (seq 0 (length (_workingSet threeOpen))) with [0; 1; 2].
    etrans; [apply perm_swap|]. apply perm_skip, perm_swap. }
  assert (Hres : ∀ d, d ∈ _workingSet threeOpen →
            ∃ fe, everyFile (pathOf d) = Some fe ∧ fullPath fe = pathOf d).
  { intros d _. by eexists. }
  split_and!; [exact threeOpen_wsInv|exact Hperm|].
  exact (save_then_restore insideProject everyFile threeOpen [2; 0; 1]
           threeOpen_wsInv Hres Hperm).
Defined.

(** The stored list names [b.js] twice. *)
Lemma restore_rejects_same_path_witness :
  [1; 0] ≡ₚ seq 0 (length storedBB) ∧
  ¬ NoDup (fullPath <$> survivors sampleGetFile storedBB) ∧
  ∃ st',
    _init insideProject sampleGetFile (Some storedBB) [1; 0] initial
    = Threw DocumentAlreadyExists st'.
Proof.
  assert (Hperm : [1; 0] ≡ₚ seq 0 (length storedBB)) by apply perm_swap.
  assert (Hdup : ¬ NoDup (fullPath <$> survivors sampleGetFile storedBB)).
  { intros Hnd. apply NoDup_cons in Hnd as [Hnot _]. apply Hnot.
    apply list_elem_of_here. }
  split_and!; [exact Hperm|exact Hdup|].
  exact (restore_rejects_same_path insideProject sampleGetFile storedBB [1; 0] initial
           Hperm (or_introl Hdup)).
Defined.

(** The restore of [storedABC]: the record of [b.js] is the one flagged
    active. *)
Lemma restore_active_entry_current_witness :
  [2; 0; 1] ≡ₚ seq 0 (length storedABC) ∧
  storedABC !! 1 = Some {| storedPath := "b.js"; active := true |} ∧
  ∃ st' d,
    _init insideProject sampleGetFile (Some storedABC) [2; 0; 1] initial
    = Returned tt st' ∧
    _currentDocument st' = Some d ∧ file d = fileB ∧
    d ∈ built (length (documents initial)) (survivors sampleGetFile storedABC).
Proof.
  assert (Hperm : [2; 0; 1] ≡ₚ seq 0 (length storedABC)).
  { simpl. etrans; [apply perm_swap|]. apply perm_skip, perm_swap. }
  assert (Hnd : NoDup (fullPath <$> survivors sampleGetFile storedABC)).
  { vm_compute. repeat constructor; intros Hin;
      repeat (apply elem_of_cons in Hin as [[=]|Hin]); by apply elem_of_nil in Hin. }
  split_and!; [exact Hperm|reflexivity|].
  apply (restore_active_entry_current insideProject sampleGetFile storedABC
           [2; 0; 1] initial 1 {| storedPath := "b.js"; active := true |} fileB
           Hperm Hnd); try reflexivity.
  intros [|[|[|j]]] v Hj Hav _; try done; vm_compute in Hj;
    injection Hj as <-; discriminate.
Defined.

(** Saved at depth 2, then one more edit and its undo. *)
Lemma dirty_bit_follows_watermark_witness :
  _editor (fieldsOf savedAtTwo docA) = Some 0 ∧
  ∃ st',
    editorChanges 0 [ {| undo := 3; redo := 0 |}; {| undo := 2; redo := 1 |} ]
      savedAtTwo = Returned tt st' ∧
    _savedUndoPosition (fieldsOf st' docA) = 2%Z ∧
    isDirty (fieldsOf st' docA) = false.
Proof.
  assert (He : _editor (fieldsOf savedAtTwo docA) = Some 0) by reflexivity.
  split; [exact He|].
  apply (dirty_bit_follows_watermark docA 0
           [ {| undo := 3; redo := 0 |}; {| undo := 2; redo := 1 |} ]
           savedAtTwo He).
  - eexists. split; reflexivity.
  - repeat constructor; intros [H1 H2]; vm_compute in *; congruence.
Defined.

(** Saved at depth 2, then one undo, a different edit, and one more
    edit: the depth is 2 again and the document stays dirty. *)
Lemma divergence_is_permanent_witness :
  (undo {| undo := 1; redo := 0 |} < _savedUndoPosition (fieldsOf savedAtTwo docA))%Z ∧
  ∃ st',
    editorChanges 0 [ {| undo := 1; redo := 0 |}; {| undo := 2; redo := 0 |} ]
      savedAtTwo = Returned tt st' ∧
    _savedUndoPosition (fieldsOf st' docA) = (-1)%Z ∧
    isDirty (fieldsOf st' docA) = true.
Proof.
  assert (Hbelow : (undo {| undo := 1; redo := 0 |}
                    < _savedUndoPosition (fieldsOf savedAtTwo docA))%Z)
    by (vm_compute; reflexivity).
  split; [exact Hbelow|].
  apply (divergence_is_permanent savedAtTwo docA 0
           {| history := {| undo := 2; redo := 0 |}; onChange := Some docA |}
           {| undo := 1; redo := 0 |} [ {| undo := 2; redo := 0 |} ]);
    try reflexivity; try exact Hbelow.
  - simpl. lia.
  - repeat constructor. simpl. lia.
Defined.

(** [docA] prints clean in [fresh] and dirty in [edited]; it prints alike
    in [fresh] and in [savedAtTwo]. *)
Lemma toString_tells_path_and_flag_witness :
  toString fresh docA = "[Document /proj/a.js (clean)]" ∧
  toString edited docA = "[Document /proj/a.js (dirty!)]" ∧
  toString fresh docA = toString savedAtTwo docA ∧
  pathOf docA = pathOf docA ∧
  isDirty (fieldsOf fresh docA) = isDirty (fieldsOf savedAtTwo docA).
Proof.
  assert (Hsame : toString fresh docA = toString savedAtTwo docA) by reflexivity.
  split_and!; [reflexivity|reflexivity|exact Hsame|..];
    apply (toString_tells_path_and_flag fresh savedAtTwo docA docA Hsame).
Defined.
